(** * The adaptive sampling engine of [benchmark.hpp]

    A shallow embedding of the class template [benchmark<Fn>]
    (include/benchmark/benchmark.hpp): the warm-up estimator
    [estimate_execution_time], the iteration planner [update_iterations] and
    the sampling loop of the constructor, followed by the properties of the
    engine.

    Modelling choices.
    - The callable together with the clock readings around it is an oracle:
      [fn k] is the tick count [duration_cast<nanoseconds>(end - start).count()]
      measured around the [k]-th invocation, or [None] when that invocation
      throws (every invocation returns or throws).  Tick counts are signed
      64-bit integers, kept as [Z].
    - [std::size_t] values are [N]; the one place where a counter is
      incremented without an a-priori bound ([num_runs += 1]) has its
      wrap-around written out.
    - [long double] arithmetic is taken exact (no rounding, no overflow) over
      [R]; the only IEEE special values the code can produce come from the
      division [standard_deviation * 100 / mean], whose result lives in [ld].
    - Exceptions are the [Threw] outcome of a small state-and-error monad; the
      [while (true)] loop is run on fuel. *)

From Stdlib Require Import String DecimalString DecimalN.
From Stdlib Require Import ZArith NArith Reals Lra Lia Bool List.
Import ListNotations.

(** ** Values of type [long double] *)

Module LongDouble.

Open Scope R_scope.

(** A [long double] as far as the sampling loop can tell them apart: a real
    number, an infinity or a NaN. *)
Inductive ld : Type :=
| Fin (x : R)
| PInf
| NInf
| NaN.

Definition Rltb (x y : R) : bool := if Rlt_dec x y then true else false.

(** [a / b] on two finite operands.  A zero divisor gives a NaN for [0 / 0]
    and an infinity of the sign of the dividend otherwise (every zero the
    loop divides by is a positive zero). *)
Definition ld_div (a b : R) : ld :=
  if Req_dec_T b 0 then
    if Req_dec_T a 0 then NaN
    else if Rlt_dec 0 a then PInf else NInf
  else Fin (a / b).

(** [a < b] of IEEE 754: false as soon as one side is a NaN. *)
Definition ld_ltb (a b : ld) : bool :=
  match a, b with
  | NaN, _ | _, NaN => false
  | NInf, NInf => false
  | NInf, _ => true
  | _, NInf => false
  | PInf, _ => false
  | Fin _, PInf => true
  | Fin x, Fin y => Rltb x y
  end.

(** [std::min(a, b)]: [(b < a) ? b : a]. *)
Definition std_min (a b : ld) : ld := if ld_ltb b a then b else a.

Definition is_nan (a : ld) : bool :=
  match a with NaN => true | _ => false end.

Definition is_finite (a : ld) : bool :=
  match a with Fin _ => true | _ => false end.

(** [a <= b] of IEEE 754. *)
Definition ld_leb (a b : ld) : bool :=
  match a, b with
  | NaN, _ | _, NaN => false
  | NInf, _ => true
  | _, PInf => true
  | PInf, _ => false
  | _, NInf => false
  | Fin x, Fin y => negb (Rltb y x)
  end.

End LongDouble.
Export LongDouble.

(** ** The world around the benchmark and the monad of its effects *)

(** The postfix text of the progress bar, as the fields it is printed from:
    [num_runs "/" max_num_runs_ " μ = " mean_lowest_rsd " ± " lowest_rsd
    "%, N = " num_iterations_lowest_rsd]. *)
Record PostfixText : Type := mkPostfix {
  shown_num_runs : N;
  shown_max_num_runs : N;
  shown_mean : R;
  shown_rsd : ld;
  shown_N : N
}.

(** [indicators::BlockProgressBar], reduced to the options the constructor
    sets. *)
Record BlockProgressBar : Type := mkBar {
  prefix_text : string;
  max_progress : N;
  progress : N;
  completed : bool
}.

(** What persists outside the [benchmark] object: how many times the callable
    has been invoked, whether the console cursor is shown, and the postfix
    texts handed to the progress bar so far (oldest first). *)
Record world : Type := mkWorld {
  calls : nat;
  cursor_shown : bool;
  postfixes : list PostfixText
}.

(** How a computation ends: normally, by an exception that leaves the
    constructor, or not within the fuel given to the [while (true)] loop. *)
Inductive outcome (A : Type) : Type :=
| Ok (a : A) (w : world)
| Threw (w : world)
| OutOfFuel.
Arguments Ok {A} a w.
Arguments Threw {A} w.
Arguments OutOfFuel {A}.

Definition M (A : Type) : Type := world -> outcome A.

Definition ret {A} (a : A) : M A := fun w => Ok a w.

Definition bind {A B} (m : M A) (k : A -> M B) : M B :=
  fun w => match m w with
           | Ok a w' => k a w'
           | Threw w' => Threw w'
           | OutOfFuel => OutOfFuel
           end.

Definition throw {A} : M A := fun w => Threw w.

Declare Scope bench_scope.
Delimit Scope bench_scope with bench.
Notation "x <- m ;; k" := (bind m (fun x => k))
  (at level 61, m at next level, right associativity) : bench_scope.
Notation "m ;;; k" := (bind m (fun _ => k))
  (at level 61, right associativity) : bench_scope.
Open Scope bench_scope.

Definition final_world {A} (o : outcome A) : option world :=
  match o with Ok _ w => Some w | Threw w => Some w | OutOfFuel => None end.

Definition value {A} (o : outcome A) : option A :=
  match o with Ok a _ => Some a | _ => None end.

Definition terminated {A} (o : outcome A) : bool :=
  match o with OutOfFuel => false | _ => true end.

(** The callable under test, with the two clock readings around it. *)
Definition callable : Type := nat -> option Z.

(** [start = now(); fn(); end = now(); (end - start).count()] *)
Definition timed_call (fn : callable) : M Z :=
  fun w =>
    let w' := mkWorld (S (calls w)) (cursor_shown w) (postfixes w) in
    match fn (calls w) with
    | Some t => Ok t w'
    | None => Threw w'
    end.

(** [indicators::show_console_cursor(show)] *)
Definition show_console_cursor (show : bool) : M unit :=
  fun w => Ok tt (mkWorld (calls w) show (postfixes w)).

(** [bar.set_option(option::PostfixText{os.str()})], seen from outside. *)
Definition set_postfix_text (p : PostfixText) : M unit :=
  fun w => Ok tt (mkWorld (calls w) (cursor_shown w) (postfixes w ++ [p])).

(** ** The benchmark object *)

(** The two data members, [num_iterations_{0}] and [max_num_runs_{0}]. *)
Record benchmark_obj : Type := mkObj {
  num_iterations_ : N;
  max_num_runs_ : N
}.

(** *** [estimate_execution_time] (lines 22-42) *)

Definition warmup_runs : nat := 10.

(** [std::min(execution_time, result)] on two tick counts converted to
    [long double]; the conversion is monotone and the estimate is only ever
    compared, so it is kept as the integer it stands for. *)
Definition min_time (execution_time result : Z) : Z :=
  if (result <? execution_time)%Z then result else execution_time.

(** The body of the [for] loop, [n] iterations from the state
    [(result, first_run)]. *)
Fixpoint warmup_loop (fn : callable) (n : nat) (result : Z) (first_run : bool)
  : M Z :=
  match n with
  | O => ret result
  | S n' =>
      execution_time <- timed_call fn ;;
      if first_run
      then warmup_loop fn n' execution_time false
      else warmup_loop fn n' (min_time execution_time result) false
  end.

(** [result] is declared without an initial value; [uninit] stands for it. *)
Definition estimate_execution_time_from (uninit : Z) (fn : callable) : M Z :=
  warmup_loop fn warmup_runs uninit true.

Definition estimate_execution_time (fn : callable) : M Z :=
  estimate_execution_time_from 0%Z fn.

(** *** [update_iterations] (lines 44-72) *)

(** The cascade of comparisons on [early_estimate_execution_time]. *)
Definition policy_for (early_estimate_execution_time : Z) : benchmark_obj :=
  if (early_estimate_execution_time <? 100)%Z then mkObj 128000 10000
  else if (early_estimate_execution_time <? 1000)%Z then mkObj 64000 5000
  else if (early_estimate_execution_time <? 1000000)%Z then mkObj 32000 1000
  else if (early_estimate_execution_time <? 1000000000)%Z then mkObj 4000 100
  else mkObj 1000 10.

Definition update_iterations (fn : callable) : M benchmark_obj :=
  early_estimate_execution_time <- estimate_execution_time fn ;;
  ret (policy_for early_estimate_execution_time).

(** *** The sampling loop of the constructor (lines 93-175) *)

(** The running record of the round with the lowest relative standard
    deviation: the locals [lowest_rsd], [num_iterations_lowest_rsd] and
    [mean_lowest_rsd]. *)
Record ConvergenceState : Type := mkConv {
  lowest_rsd : ld;
  num_iterations_lowest_rsd : N;
  mean_lowest_rsd : R
}.

(** [lowest_rsd = 100], [num_iterations_lowest_rsd = 0],
    [mean_lowest_rsd = 0]. *)
Definition conv_init : ConvergenceState := mkConv (Fin 100) 0 0.

(** The locals of the constructor that live across rounds. *)
Record locals : Type := mkLocals {
  conv : ConvergenceState;
  num_runs : N;
  durations : list Z;
  bar : BlockProgressBar
}.

(** The statistics of one round (lines 133-142). *)
Record RoundStatistics : Type := mkStats {
  mean : R;
  variance : R;
  standard_deviation : R;
  relative_standard_deviation : ld
}.

(** [n += 1] on a [std::size_t]. *)
Definition size_t_incr (n : N) : N := ((n + 1) mod 2 ^ 64)%N.

(** A [std::size_t] converted to [long double]. *)
Definition size_to_ld (n : N) : R := IZR (Z.of_N n).

(** The benchmark runs: [n] timed calls, each pushed to the back of
    [durations]. *)
Fixpoint measure_loop (fn : callable) (n : nat) (durations : list Z)
  : M (list Z) :=
  match n with
  | O => ret durations
  | S n' =>
      execution_time <- timed_call fn ;;
      measure_loop fn n' (durations ++ [execution_time])
  end.

(** [std::accumulate(durations.begin(), durations.end(), 0.0)] *)
Definition accumulate (durations : list Z) : R :=
  fold_left (fun init d => init + IZR d)%R durations 0%R.

(** [durations.at(i)], which throws [std::out_of_range] past the end. *)
Definition at_ (durations : list Z) (i : nat) : M Z :=
  match nth_error durations i with
  | Some d => ret d
  | None => throw
  end.

(** [for (i = 0; i < size; i++) E += std::pow(durations.at(i) - mean, 2)],
    [n] iterations from index [i]. *)
Fixpoint deviation_loop (durations : list Z) (mean : R) (n i : nat) (E : R)
  : M R :=
  match n with
  | O => ret E
  | S n' =>
      d <- at_ durations i ;;
      deviation_loop durations mean n' (S i) (E + (IZR d - mean) ^ 2)%R
  end.

(** Lines 133-142: mean, variance, standard deviation and relative standard
    deviation of the round.  [size] is [num_iterations_], which no branch of
    [update_iterations] leaves at 0, and the variance is a sum of squares
    over a positive count, so the two divisions by [size] and the square
    root stay among the real numbers. *)
Definition reduce (durations : list Z) (size : N) : M RoundStatistics :=
  let mean := (accumulate durations / size_to_ld size)%R in
  E <- deviation_loop durations mean (N.to_nat size) 0 0%R ;;
  let variance := (E / size_to_ld size)%R in
  let standard_deviation := sqrt variance in
  let relative_standard_deviation := ld_div (standard_deviation * 100) mean in
  ret (mkStats mean variance standard_deviation relative_standard_deviation).

(** Lines 144-150: save record of lowest RSD. *)
Definition save_record (relative_standard_deviation : ld) (num_iterations : N)
    (mean : R) (c : ConvergenceState) : ConvergenceState :=
  let current_lowest_rsd := lowest_rsd c in
  let lowest_rsd' := std_min relative_standard_deviation current_lowest_rsd in
  if ld_ltb lowest_rsd' current_lowest_rsd
  then mkConv lowest_rsd' num_iterations mean
  else mkConv lowest_rsd' (num_iterations_lowest_rsd c) (mean_lowest_rsd c).

Definition set_max_progress (n : N) (b : BlockProgressBar) : BlockProgressBar :=
  mkBar (prefix_text b) n (progress b) (completed b).

Definition set_progress (n : N) (b : BlockProgressBar) : BlockProgressBar :=
  mkBar (prefix_text b) (max_progress b) n (completed b).

Definition mark_as_completed (b : BlockProgressBar) : BlockProgressBar :=
  mkBar (prefix_text b) (max_progress b) (progress b) true.

(** One turn of the [while (true)] loop.  The boolean tells whether the turn
    left the loop through [break]; otherwise [durations] has been cleared and
    [num_runs] incremented. *)
Definition loop_body (fn : callable) (st : locals)
  : M (benchmark_obj * locals * bool) :=
  obj <- update_iterations fn ;;
  let bar1 := set_max_progress (max_num_runs_ obj) (bar st) in
  durations' <- measure_loop fn (N.to_nat (num_iterations_ obj)) (durations st) ;;
  let size := num_iterations_ obj in
  stats <- reduce durations' size ;;
  let conv' := save_record (relative_standard_deviation stats)
                 (num_iterations_ obj) (mean stats) (conv st) in
  let bar2 := set_progress (num_runs st) bar1 in
  set_postfix_text (mkPostfix (num_runs st) (max_num_runs_ obj)
                      (mean_lowest_rsd conv') (lowest_rsd conv')
                      (num_iterations_lowest_rsd conv')) ;;;
  if (max_num_runs_ obj <=? num_runs st)%N
  then ret (obj, mkLocals conv' (num_runs st) durations'
                   (mark_as_completed bar2), true)
  else ret (obj, mkLocals conv' (size_t_incr (num_runs st)) [] bar2, false).

Fixpoint sampling_loop (fuel : nat) (fn : callable) (st : locals)
  : M (benchmark_obj * locals) :=
  match fuel with
  | O => fun _ => OutOfFuel
  | S fuel' =>
      r <- loop_body fn st ;;
      let '(obj, st', stopped) := r in
      if stopped then ret (obj, st') else sampling_loop fuel' fn st'
  end.

(** The constructor [benchmark(name, fn)]. *)
Definition benchmark (fuel : nat) (name : string) (fn : callable)
  : M (benchmark_obj * locals) :=
  obj <- update_iterations fn ;;
  let st := mkLocals conv_init 0 []
              (mkBar (name ++ " ")%string (max_num_runs_ obj) 0 false) in
  show_console_cursor false ;;;
  r <- sampling_loop fuel fn st ;;
  show_console_cursor true ;;;
  ret r.

(** ** Vocabulary of the statements *)

(** A callable that never throws: its [k]-th call is measured at [d k]. *)
Definition total (d : nat -> Z) : callable := fun k => Some (d k).

(** The world after [n] more calls of the callable. *)
Definition advance (n : nat) (w : world) : world :=
  mkWorld (calls w + n) (cursor_shown w) (postfixes w).

(** The smallest element of [t :: ts]. *)
Definition minimum (t : Z) (ts : list Z) : Z := fold_left Z.min ts t.

(** The ten tick counts a warm-up starting at call [c] observes. *)
Definition warmup_sample (d : nat -> Z) (c : nat) : list Z :=
  map d (seq c warmup_runs).

(** The estimate of a warm-up starting at call [c]. *)
Definition estimate_at (d : nat -> Z) (c : nat) : Z :=
  minimum (d c) (map d (seq (S c) (pred warmup_runs))).

(** The estimator as the specification words it: the first call only sets
    the baseline and is discarded, the estimate is the minimum over the
    remaining calls. *)
Definition estimate_discarding_first (ts : list Z) : option Z :=
  match ts with
  | _ :: t :: rest => Some (minimum t rest)
  | _ => None
  end.

(** Sum of the durations and sum of their squared deviations from [m], as
    the statistics are worded. *)
Definition sum_of (ds : list Z) : R :=
  fold_right (fun d acc => IZR d + acc)%R 0%R ds.

Definition squared_deviations (m : R) (ds : list Z) : R :=
  fold_right (fun d acc => (IZR d - m) ^ 2 + acc)%R 0%R ds.

Definition statistics_of (ds : list Z) (size : N) : RoundStatistics :=
  let m := (sum_of ds / size_to_ld size)%R in
  let v := (squared_deviations m ds / size_to_ld size)%R in
  mkStats m v (sqrt v) (ld_div (sqrt v * 100) m).

(** What one round hands to the convergence record: its relative standard
    deviation, its iteration count and its mean. *)
Record round : Type := mkRound {
  round_rsd : ld;
  round_iterations : N;
  round_mean : R
}.

Definition save_round (c : ConvergenceState) (r : round) : ConvergenceState :=
  save_record (round_rsd r) (round_iterations r) (round_mean r) c.

(** The convergence record after a sequence of rounds. *)
Definition track (c : ConvergenceState) (rounds : list round)
  : ConvergenceState :=
  fold_left save_round rounds c.

Definition no_nan (rounds : list round) : bool :=
  forallb (fun r => negb (is_nan (round_rsd r))) rounds.

Definition none_below_sentinel (rounds : list round) : bool :=
  forallb (fun r => negb (ld_ltb (round_rsd r) (Fin 100))) rounds.

(** The stored best round: its mean and its iteration count. *)
Definition best_round (c : ConvergenceState) : R * N :=
  (mean_lowest_rsd c, num_iterations_lowest_rsd c).

(** The locals at the head of the first turn of the loop. *)
Definition locals_init (name : string) (obj : benchmark_obj) : locals :=
  mkLocals conv_init 0 [] (mkBar (name ++ " ")%string (max_num_runs_ obj) 0 false).

Definition w0 : world := mkWorld 0 true [].

(** *** Callables used as examples *)

(** Every call takes two seconds. *)
Definition two_seconds : nat -> Z := fun _ => 2000000000%Z.

(** The first call is fast, the others slow. *)
Definition first_fast : nat -> Z := fun k => if (k =? 0)%nat then 1%Z else 5%Z.

(** Two seconds a call up to the end of the first round, five milliseconds
    afterwards. *)
Definition speeds_up : nat -> Z :=
  fun k => if (k <? 1020)%nat then 2000000000%Z else 5000000%Z.

(** Two seconds a call, and the call of index [k] throws. *)
Definition throws_at (k : nat) : callable :=
  fun i => if (i =? k)%nat then None else Some 2000000000%Z.

(** An immeasurably fast callable on a coarse clock: every call reads 0. *)
Definition immeasurable : nat -> Z := fun _ => 0%Z.

(** A sample of [n] such calls. *)
Definition all_zero (n : nat) : list Z := repeat 0%Z n.

(** Callables that stay in the first latency range, so that every round has
    128000 iterations and takes 128010 calls, and whose rounds are made of a
    slow first fifth and a fast rest: round [r] starts at call
    [10 + 128010 * r], after the ten calls of the planning that precedes the
    loop; [p0], [p1] and [p2] are the (slow, fast) tick counts of the rounds
    0, 1 and 2 onwards, the warm-up calls being fast. *)
Definition slow_part (o : Z) : bool := ((10 <=? o) && (o <? 25610))%Z.

Definition three_rounds (p0 p1 p2 : Z * Z) (k : nat) : Z :=
  let i := (Z.of_nat k - 10)%Z in
  let r := (i / 128010)%Z in
  let o := (i mod 128010)%Z in
  let p := if (r <=? 0)%Z then p0 else if (r =? 1)%Z then p1 else p2 in
  if slow_part o then fst p else snd p.

(** The sample of a round: 25600 slow calls, then 102400 fast ones. *)
Definition two_level (a b : Z) : list Z :=
  repeat a (N.to_nat 25600) ++ repeat b (N.to_nat 102400).

Definition round_start (r : N) : nat := N.to_nat (10 + 128010 * r).


(** A round in which every call reads 0, a round at 200 %, rounds at
    133.3 %. *)
Definition coarse : nat -> Z := three_rounds (0, 0)%Z (5, 0)%Z (11, 1)%Z.

(** ** Printing durations and round numbers *)

(** *** [benchmark::duration_to_string] (benchmark.hpp, lines 74-89) *)

(** The text [os << std::setprecision(3) << x] produces for a [long double]
    is the standard library's business: [general3] stands for it.  [ns] is
    a finite value and the divisions are exact, as in the rest of the
    model. *)
Definition duration_to_string (general3 : R -> string) (ns : R) : string :=
  if Rltb ns 1000 then (general3 ns ++ "ns")%string
  else if Rltb ns 1000000 then (general3 (ns / 1000) ++ "us")%string
  else if Rltb ns 1000000000 then (general3 (ns / 1000000) ++ "ms")%string
  else (general3 (ns / 1000000000) ++ "s")%string.

(** *** [criterion::console_writer] (console writer, lines 11-43) *)

Module console_writer.

(** [std::to_string(n)] on a [std::size_t]: the decimal digits of [n]. *)
Definition to_string (n : N) : string :=
  NilEmpty.string_of_uint (N.to_uint n).

(** Lines 12-33.  [fixed0] stands for the text
    [os << std::fixed << std::setprecision(0) << x] produces. *)
Definition duration_to_string (fixed0 : R -> string) (ns : R) : string :=
  let duration := Rabs ns in
  let os :=
    if Rltb duration 1000 then (fixed0 duration ++ " ns")%string
    else if Rltb duration 1000000
         then (fixed0 (duration / 1000) ++ " us")%string
    else if Rltb duration 1000000000
         then (fixed0 (duration / 1000000) ++ " ms")%string
    else (fixed0 (duration / 1000000000) ++ " s")%string in
  let result := EmptyString in
  let result := if Rltb ns 0 then (result ++ "-")%string
                else (result ++ "+")%string in
  (result ++ os)%string.

(** The static array [ends] of [ordinal]. *)
Definition ends : list string :=
  ["th"; "st"; "nd"; "rd"; "th"; "th"; "th"; "th"; "th"; "th"]%string.

(** Lines 35-43.  [ends[n % 10]] is an unchecked array access: [None] stands
    for a read past the end of the array. *)
Definition ordinal (n : N) : option string :=
  if ((11 <=? n mod 100) && (n mod 100 <=? 13))%N
  then Some (to_string n ++ "th")%string
  else match nth_error ends (N.to_nat (n mod 10)) with
       | Some e => Some (to_string n ++ e)%string
       | None => None
       end.

End console_writer.

(** The unit suffixes of the two [duration_to_string], by rank. *)
Definition units : list string := ["ns"; "us"; "ms"; "s"]%string.


(** ** Vocabulary of the further properties *)

(** The calls of index [c], ..., [c + n - 1] of the callable all return. *)
Definition calls_return (fn : callable) (c n : nat) : Prop :=
  forall k, (c <= k < c + n)%nat -> fn k <> None.

(** An outcome reached from [w] by calls of the callable made one after the
    other: when it is normal every call made has returned; when it is an
    exception the last call made is the one that threw and every call before
    it has returned. *)
Definition in_sequence {A} (fn : callable) (w : world) (o : outcome A)
  : Prop :=
  match o with
  | Ok _ w' =>
      (calls w <= calls w')%nat /\
      calls_return fn (calls w) (calls w' - calls w)
  | Threw w' =>
      (calls w < calls w')%nat /\
      fn (pred (calls w')) = None /\
      calls_return fn (calls w) (pred (calls w') - calls w)
  | OutOfFuel => True
  end.

(** [start], [start + 1], ..., [len] numbers in all. *)
Fixpoint N_seq (start : N) (len : nat) : list N :=
  match len with
  | O => []
  | S len' => start :: N_seq (N.succ start) len'
  end.

(** The ticks of a sample, added up. *)
Definition total_ticks (ds : list Z) : Z := fold_right Z.add 0%Z ds.

(** The rounds of a callable that never throws, read off its tick counts:
    the round that starts at call [c] with the round counter at [num_runs]
    is planned from the calls [c], ..., [c + 9], its sample is the
    [num_iterations_] calls that follow, and it is the last one when the
    counter has reached the budget. *)
Fixpoint rounds_from (d : nat -> Z) (fuel c : nat) (num_runs : N)
  : list round :=
  match fuel with
  | O => []
  | S fuel' =>
      let obj := policy_for (estimate_at d c) in
      let n := N.to_nat (num_iterations_ obj) in
      let stats :=
        statistics_of (map d (seq (c + warmup_runs) n)) (num_iterations_ obj) in
      mkRound (relative_standard_deviation stats) (num_iterations_ obj)
        (mean stats)
      :: (if (max_num_runs_ obj <=? num_runs)%N then []
          else rounds_from d fuel' (c + warmup_runs + n) (num_runs + 1))
  end.

(** No run of the sampling loop takes more turns than this. *)
Definition round_bound : nat := N.to_nat 10001.

(** [m] ends, normally or by an exception, and touches neither the cursor
    nor the progress bar. *)
Definition silent {A} (m : M A) : Prop :=
  forall w, match m w with
            | Ok _ w' | Threw w' =>
                cursor_shown w' = cursor_shown w /\ postfixes w' = postfixes w
            | OutOfFuel => False
            end.

(** ** Comparisons of [long double] values *)

Lemma Rltb_true (x y : R) : Rltb x y = true <-> (x < y)%R.
Proof. unfold Rltb; destruct (Rlt_dec x y); split; intros; try easy. Qed.

Lemma Rltb_false (x y : R) : Rltb x y = false <-> (y <= x)%R.
Proof.
  unfold Rltb; destruct (Rlt_dec x y); split; intros; try easy; lra.
Qed.

Lemma ld_ltb_irrefl (a : ld) : ld_ltb a a = false.
Proof. destruct a; simpl; auto. apply Rltb_false; lra. Qed.

Lemma ld_ltb_nan_r (a : ld) : ld_ltb a NaN = false.
Proof. now destruct a. Qed.

Lemma ld_leb_refl (a : ld) : is_nan a = false -> ld_leb a a = true.
Proof.
  destruct a; simpl; auto; try discriminate.
  intros _; apply negb_true_iff, Rltb_false; lra.
Qed.

Lemma ld_leb_trans (a b c : ld) :
  ld_leb a b = true -> ld_leb b c = true -> ld_leb a c = true.
Proof.
  destruct a, b, c; simpl; auto; try discriminate.
  rewrite !negb_true_iff, !Rltb_false; lra.
Qed.

(** Without NaN the order is total. *)
Lemma ld_ltb_total (a b : ld) :
  is_nan a = false -> is_nan b = false ->
  ld_ltb a b = false -> ld_leb b a = true.
Proof.
  destruct a, b; simpl; auto; try discriminate.
  intros _ _ H; now rewrite H.
Qed.

Lemma ld_ltb_asym (a b : ld) : ld_ltb a b = true -> ld_ltb b a = false.
Proof.
  destruct a, b; simpl; auto; try discriminate.
  rewrite Rltb_true, Rltb_false; lra.
Qed.

Lemma std_min_nan_l (b : ld) : std_min NaN b = NaN.
Proof. unfold std_min; now rewrite ld_ltb_nan_r. Qed.

(** ** The monad *)

Lemma bind_Ok {A B} {m : M A} (k : A -> M B) {w a w'} :
  m w = Ok a w' -> bind m k w = k a w'.
Proof. unfold bind; now intros ->. Qed.

Lemma advance_0 w : advance 0 w = w.
Proof. destruct w; unfold advance; simpl; now rewrite Nat.add_0_r. Qed.

Lemma advance_advance n m w : advance m (advance n w) = advance (n + m) w.
Proof. unfold advance; simpl; now rewrite Nat.add_assoc. Qed.

Lemma timed_call_Some {fn w t} :
  fn (calls w) = Some t -> timed_call fn w = Ok t (advance 1 w).
Proof.
  unfold timed_call, advance; intros ->; now rewrite Nat.add_1_r.
Qed.

Lemma timed_call_total d w :
  timed_call (total d) w = Ok (d (calls w)) (advance 1 w).
Proof. now apply timed_call_Some. Qed.

(** ** The warm-up estimator *)

Lemma min_time_min t r : min_time t r = Z.min r t.
Proof.
  unfold min_time; destruct (Z.ltb_spec r t); lia.
Qed.

Lemma minimum_cons r t ts : minimum r (t :: ts) = minimum (Z.min r t) ts.
Proof. reflexivity. Qed.

Lemma minimum_le_start ts : forall t, (minimum t ts <= t)%Z.
Proof.
  induction ts as [|u ts IH]; intros t; unfold minimum in *; simpl; [lia|].
  specialize (IH (Z.min t u)); lia.
Qed.

Lemma minimum_lower_bound ts : forall t, Forall (Z.le (minimum t ts)) ts.
Proof.
  induction ts as [|u ts IH]; intros t; constructor.
  - rewrite minimum_cons.
    pose proof (minimum_le_start ts (Z.min t u)); lia.
  - rewrite minimum_cons; apply IH.
Qed.

Lemma minimum_In ts : forall t, minimum t ts = t \/ In (minimum t ts) ts.
Proof.
  induction ts as [|u ts IH]; intros t; [now left|].
  rewrite minimum_cons.
  destruct (IH (Z.min t u)) as [E|E].
  - rewrite E. destruct (Z.min_spec t u) as [[_ ->]|[_ ->]]; simpl; auto.
  - right; now right.
Qed.

(** What the [for] loop of the estimator computes from the tick counts [ts]
    of its calls. *)
Lemma warmup_loop_ok ts : forall fn result first_run w,
  map fn (seq (calls w) (length ts)) = map Some ts ->
  warmup_loop fn (length ts) result first_run w =
  Ok (match ts with
      | [] => result
      | t :: rest => if first_run then minimum t rest else minimum result ts
      end) (advance (length ts) w).
Proof.
  induction ts as [|t ts IH]; intros fn result first_run w H.
  - simpl. unfold ret. now rewrite advance_0.
  - simpl in H. injection H as Ht Hts.
    cbn [length warmup_loop].
    rewrite (bind_Ok _ (timed_call_Some Ht)).
    assert (Hts' : map fn (seq (calls (advance 1 w)) (length ts)) = map Some ts).
    { simpl. now rewrite Nat.add_1_r. }
    destruct first_run; rewrite (IH _ _ _ _ Hts'), advance_advance; simpl;
      f_equal.
    + destruct ts; reflexivity.
    + rewrite min_time_min. destruct ts; reflexivity.
Qed.

(** The value [result] starts from is never read. *)
Lemma estimate_uninit_irrelevant u fn w :
  estimate_execution_time_from u fn w = estimate_execution_time fn w.
Proof.
  unfold estimate_execution_time, estimate_execution_time_from, warmup_runs.
  cbn [warmup_loop]. unfold bind.
  destruct (timed_call fn w); reflexivity.
Qed.

Lemma estimate_total d w :
  estimate_execution_time (total d) w =
  Ok (estimate_at d (calls w)) (advance warmup_runs w).
Proof.
  unfold estimate_execution_time, estimate_execution_time_from.
  pose proof (warmup_loop_ok (warmup_sample d (calls w)) (total d) 0%Z true w)
    as H.
  unfold warmup_sample in H. rewrite length_map, length_seq in H.
  rewrite H.
  - reflexivity.
  - unfold total. now rewrite map_map.
Qed.

(** C2, as amended: the warm-up estimator invokes the callable exactly ten
    times and returns the minimum of the tick counts of all ten calls; the
    first call is not discarded, it is the value the minimum starts from. *)
Theorem estimate_is_minimum_of_all_calls (fn : callable) (w : world)
    (ts : list Z) :
  length ts = warmup_runs ->
  map fn (seq (calls w) warmup_runs) = map Some ts ->
  exists m,
    estimate_execution_time fn w = Ok m (advance 10 w) /\
    In m ts /\ Forall (Z.le m) ts.
Proof.
  intros Hlen Hts.
  unfold estimate_execution_time, estimate_execution_time_from.
  rewrite <- Hlen in Hts |- *.
  rewrite (warmup_loop_ok ts fn 0%Z true w Hts).
  destruct ts as [|t rest]; [discriminate|].
  exists (minimum t rest). rewrite Hlen. split; [reflexivity|]. split.
  - destruct (minimum_In rest t) as [E|E]; [left; now rewrite E | now right].
  - constructor; [apply minimum_le_start | apply minimum_lower_bound].
Qed.

Lemma estimate_is_minimum_of_all_calls_witness :
  exists m,
    estimate_execution_time (total first_fast) w0 = Ok m (advance 10 w0) /\
    In m (warmup_sample first_fast 0) /\
    Forall (Z.le m) (warmup_sample first_fast 0).
Proof.
  apply (estimate_is_minimum_of_all_calls (total first_fast) w0
           (warmup_sample first_fast 0)); reflexivity.
Defined.

(** C2, as stated, fails: when the first of the ten calls is the fastest, the
    estimate is the first call's tick count (1), not the minimum over the
    nine remaining calls (5). *)
Lemma estimate_keeps_first_call :
  estimate_execution_time (total first_fast) w0 = Ok 1%Z (advance 10 w0) /\
  estimate_discarding_first (warmup_sample first_fast 0) = Some 5%Z /\
  value (estimate_execution_time (total first_fast) w0) <>
  estimate_discarding_first (warmup_sample first_fast 0).
Proof.
  repeat split; try reflexivity. vm_compute. discriminate.
Qed.

(** ** The iteration planner *)

Lemma update_iterations_total d w :
  update_iterations (total d) w =
  Ok (policy_for (estimate_at d (calls w))) (advance warmup_runs w).
Proof.
  unfold update_iterations.
  now rewrite (bind_Ok _ (estimate_total d w)).
Qed.

Lemma policy_for_cases e :
  policy_for e = mkObj 128000 10000 \/ policy_for e = mkObj 64000 5000 \/
  policy_for e = mkObj 32000 1000 \/ policy_for e = mkObj 4000 100 \/
  policy_for e = mkObj 1000 10.
Proof.
  unfold policy_for.
  repeat match goal with |- context [Z.ltb ?a ?b] => destruct (Z.ltb a b) end;
    auto 6.
Qed.

Lemma max_num_runs_bound e : (max_num_runs_ (policy_for e) <= 10000)%N.
Proof.
  destruct (policy_for_cases e) as [H|[H|[H|[H|H]]]]; rewrite H; simpl; lia.
Qed.

Lemma num_iterations_pos e : (0 < num_iterations_ (policy_for e))%N.
Proof.
  destruct (policy_for_cases e) as [H|[H|[H|[H|H]]]]; rewrite H; simpl; lia.
Qed.

(** C3: every latency estimate [e >= 0] falls in exactly one of the five
    ranges, delimited by strict upper bounds, and the planner returns the
    pair of that range and of no other; an estimate of exactly 1000 gets
    (32000, 1000), not (64000, 5000). *)
Theorem planner_buckets (e : Z) :
  (0 <= e)%Z ->
  ((e < 100)%Z <-> policy_for e = mkObj 128000 10000) /\
  ((100 <= e < 1000)%Z <-> policy_for e = mkObj 64000 5000) /\
  ((1000 <= e < 1000000)%Z <-> policy_for e = mkObj 32000 1000) /\
  ((1000000 <= e < 1000000000)%Z <-> policy_for e = mkObj 4000 100) /\
  ((1000000000 <= e)%Z <-> policy_for e = mkObj 1000 10) /\
  ((e < 100) \/ (100 <= e < 1000) \/ (1000 <= e < 1000000) \/
   (1000000 <= e < 1000000000) \/ (1000000000 <= e))%Z /\
  policy_for 1000 = mkObj 32000 1000 /\
  policy_for 1000 <> mkObj 64000 5000.
Proof.
  intros He. unfold policy_for.
  repeat match goal with
         | |- context [Z.ltb ?a ?b] => destruct (Z.ltb_spec a b)
         end;
    repeat split; try discriminate; try lia; try reflexivity;
      intros; try discriminate; lia.
Qed.

Lemma planner_buckets_witness :
  (0 <= 1000)%Z /\ policy_for 1000 = mkObj 32000 1000.
Proof.
  split; [lia|].
  destruct (planner_buckets 1000) as (_ & _ & [H _] & _); [lia|].
  apply H; lia.
Defined.

(** ** Computations that only call the callable *)

Create HintDb silent.

Section Silent.

Variable fn : callable.

Lemma silent_ret {A} (a : A) : silent (ret a).
Proof. intros w; simpl; auto. Qed.

Lemma silent_throw {A} : silent (@throw A).
Proof. intros w; simpl; auto. Qed.

Lemma silent_bind {A B} (m : M A) (k : A -> M B) :
  silent m -> (forall a, silent (k a)) -> silent (bind m k).
Proof.
  intros Hm Hk w. unfold bind. specialize (Hm w).
  destruct (m w) as [a w1|w1|]; auto.
  specialize (Hk a w1).
  destruct (k a w1); auto; destruct Hm, Hk; split; congruence.
Qed.

Lemma silent_timed_call : silent (timed_call fn).
Proof. intros w; unfold timed_call. destruct (fn (calls w)); simpl; auto. Qed.

Hint Resolve silent_ret silent_throw silent_bind silent_timed_call : silent.

Lemma silent_warmup_loop n : forall result first_run,
  silent (warmup_loop fn n result first_run).
Proof.
  induction n as [|n IH]; intros result first_run; simpl; auto with silent.
  apply silent_bind; auto with silent.
  intros t; destruct first_run; apply IH.
Qed.

Hint Resolve silent_warmup_loop : silent.

Lemma silent_update_iterations : silent (update_iterations fn).
Proof.
  unfold update_iterations, estimate_execution_time,
    estimate_execution_time_from.
  auto with silent.
Qed.

Lemma silent_measure_loop n : forall ds, silent (measure_loop fn n ds).
Proof.
  induction n as [|n IH]; intros ds; simpl; auto with silent.
Qed.

Lemma silent_at ds i : silent (at_ ds i).
Proof.
  unfold at_; destruct (nth_error ds i); auto with silent.
Qed.

Hint Resolve silent_at : silent.

Lemma silent_deviation_loop ds m n : forall i E,
  silent (deviation_loop ds m n i E).
Proof.
  induction n as [|n IH]; intros i E; simpl; auto with silent.
Qed.

Hint Resolve silent_deviation_loop : silent.

Lemma silent_reduce ds size : silent (reduce ds size).
Proof. unfold reduce. auto with silent. Qed.

End Silent.

Lemma update_iterations_inv fn w obj w' :
  update_iterations fn w = Ok obj w' -> exists e, obj = policy_for e.
Proof.
  unfold update_iterations, bind, ret.
  destruct (estimate_execution_time fn w) as [e w1|w1|]; try discriminate.
  intros [= <- _]; now exists e.
Qed.

(** A turn of the loop always ends; it leaves the cursor alone, hands exactly
    one postfix text to the bar unless the callable throws, and when it does
    not leave the loop the round counter was below a budget of at most
    10000 and has been incremented. *)
Lemma loop_body_inv fn st w :
  match loop_body fn st w with
  | Ok (obj, st', stopped) w' =>
      cursor_shown w' = cursor_shown w /\
      (exists p, postfixes w' = postfixes w ++ [p] /\
                 shown_num_runs p = num_runs st /\
                 shown_max_num_runs p = max_num_runs_ obj) /\
      (exists e, obj = policy_for e) /\
      (exists stats, conv st' = save_record (relative_standard_deviation stats)
                                  (num_iterations_ obj) (mean stats) (conv st)) /\
      if stopped
      then (max_num_runs_ obj <= num_runs st)%N /\ num_runs st' = num_runs st
      else (num_runs st < max_num_runs_ obj)%N /\
           num_runs st' = size_t_incr (num_runs st) /\ durations st' = []
  | Threw w' =>
      cursor_shown w' = cursor_shown w /\ postfixes w' = postfixes w
  | OutOfFuel => False
  end.
Proof.
  unfold loop_body, bind.
  pose proof (silent_update_iterations fn w) as Hu.
  destruct (update_iterations fn w) as [obj w1|w1|] eqn:Eu; auto.
  destruct Hu as [Hc1 Hp1].
  pose proof (silent_measure_loop fn (N.to_nat (num_iterations_ obj))
                (durations st) w1) as Hm.
  destruct (measure_loop fn _ _ w1) as [ds w2|w2|]; auto;
    [|destruct Hm; split; congruence].
  destruct Hm as [Hc2 Hp2].
  pose proof (silent_reduce ds (num_iterations_ obj) w2) as Hr.
  destruct (reduce ds _ w2) as [stats w3|w3|]; auto;
    [|destruct Hr; split; congruence].
  destruct Hr as [Hc3 Hp3].
  unfold set_postfix_text, ret.
  destruct (N.leb_spec (max_num_runs_ obj) (num_runs st)); simpl;
    (split; [congruence|]);
    (split; [eexists; split; [rewrite Hp3, Hp2, Hp1; reflexivity|now simpl]|]);
    (split; [eapply update_iterations_inv; eassumption|]);
    (split; [now exists stats|]); auto.
Qed.

(** ** Termination of the sampling loop *)

Lemma size_t_incr_small n : (n < 10000)%N -> size_t_incr n = (n + 1)%N.
Proof.
  intros H. unfold size_t_incr. apply N.mod_small.
  change (2 ^ 64)%N with 18446744073709551616%N. lia.
Qed.

Lemma sampling_loop_terminates fn : forall fuel st w,
  (num_runs st <= 10000)%N ->
  (10000 < N.of_nat fuel + num_runs st)%N ->
  terminated (sampling_loop fuel fn st w) = true.
Proof.
  induction fuel as [|fuel IH]; intros st w Hle Hfuel; [simpl in Hfuel; lia|].
  cbn [sampling_loop]. unfold bind.
  pose proof (loop_body_inv fn st w) as Hb.
  destruct (loop_body fn st w) as [[[obj st'] stopped] w'|w'|];
    [|reflexivity|contradiction].
  destruct Hb as (_ & _ & [e ->] & _ & Hs).
  destruct stopped; [reflexivity|].
  destruct Hs as (Hlt & Hn & _).
  pose proof (max_num_runs_bound e).
  rewrite size_t_incr_small in Hn by lia.
  apply IH; lia.
Qed.

(** More fuel does not change a run that ended. *)
Lemma sampling_loop_fuel_mono fn : forall fuel extra st w,
  terminated (sampling_loop fuel fn st w) = true ->
  sampling_loop (fuel + extra) fn st w = sampling_loop fuel fn st w.
Proof.
  induction fuel as [|fuel IH]; intros extra st w H; [discriminate|].
  cbn [sampling_loop Nat.add] in *. unfold bind in *.
  destruct (loop_body fn st w) as [[[obj st'] stopped] w'|w'|]; auto.
  destruct stopped; auto.
Qed.

(** The turns of the loop never outnumber the fuel, and the cursor is as the
    loop found it however the loop ends. *)
Lemma sampling_loop_effects fn : forall fuel st w,
  match sampling_loop fuel fn st w with
  | Ok _ w' | Threw w' =>
      cursor_shown w' = cursor_shown w /\
      (length (postfixes w') <= length (postfixes w) + fuel)%nat
  | OutOfFuel => True
  end.
Proof.
  induction fuel as [|fuel IH]; intros st w; [exact I|].
  cbn [sampling_loop]. unfold bind.
  pose proof (loop_body_inv fn st w) as Hb.
  destruct (loop_body fn st w) as [[[obj st'] stopped] w'|w'|];
    [| destruct Hb as [-> ->]; split; [reflexivity|lia] | contradiction].
  destruct Hb as (Hc & (p & Hp & _) & _).
  assert (Hlen : length (postfixes w') = S (length (postfixes w))).
  { rewrite Hp, length_app; simpl; lia. }
  destruct stopped.
  - unfold ret; split; [assumption|lia].
  - specialize (IH st' w').
    destruct (sampling_loop fuel fn st' w'); auto;
      destruct IH as [-> Hl]; split; auto; lia.
Qed.

(** C9: whatever the callable does and however its latency estimates move
    between rounds, the constructor ends within 10001 turns of the sampling
    loop: each turn that does not leave the loop found the round counter
    below a budget of at most 10000 and incremented it.  Any larger fuel
    gives the same result. *)
Theorem sampling_loop_always_terminates (name : string) (fn : callable)
    (w : world) :
  terminated (benchmark round_bound name fn w) = true /\
  (forall extra, benchmark (round_bound + extra) name fn w =
                 benchmark round_bound name fn w) /\
  (forall w', final_world (benchmark round_bound name fn w) = Some w' ->
     (length (postfixes w') <= length (postfixes w) + round_bound)%nat).
Proof.
  unfold benchmark, bind.
  pose proof (silent_update_iterations fn w) as Hu.
  destruct (update_iterations fn w) as [obj w1|w1|];
    [| destruct Hu as [_ Hp]; repeat split; auto; intros w' [= <-];
       rewrite Hp; lia
     | contradiction].
  destruct Hu as [_ Hp1].
  set (st := mkLocals _ _ _ _).
  destruct (show_console_cursor false w1) as [u w2|w2|] eqn:Ec;
    try discriminate.
  assert (Hp2 : postfixes w2 = postfixes w1) by (now injection Ec as _ <-).
  assert (Ht : terminated (sampling_loop round_bound fn st w2) = true).
  { apply sampling_loop_terminates; unfold round_bound;
      rewrite ?N2Nat.id; simpl; lia. }
  split; [|split].
  - destruct (sampling_loop round_bound fn st w2); auto.
  - intros extra.
    now rewrite (sampling_loop_fuel_mono fn round_bound extra st w2 Ht).
  - intros w'. pose proof (sampling_loop_effects fn round_bound st w2) as He.
    destruct (sampling_loop round_bound fn st w2) as [r w3|w3|]; simpl;
      try discriminate; intros [= <-]; simpl; destruct He as [_ He];
        rewrite <- Hp1, <- Hp2; exact He.
Qed.

(** ** The console cursor *)

(** C7, as amended: the cursor is hidden before the sampling loop begins and
    shown again when the constructor completes normally.  When the callable
    throws inside the loop the exception leaves the constructor with the
    cursor still hidden; when it throws in the planning that precedes the
    loop the cursor has not been touched. *)
Theorem cursor_restored_on_normal_exit_only (fuel : nat) (name : string)
    (fn : callable) (w : world) :
  match benchmark fuel name fn w with
  | Ok _ w' => cursor_shown w' = true
  | Threw w' =>
      match update_iterations fn w with
      | Ok _ _ => cursor_shown w' = false
      | _ => cursor_shown w' = cursor_shown w
      end
  | OutOfFuel => True
  end.
Proof.
  unfold benchmark, bind.
  pose proof (silent_update_iterations fn w) as Hu.
  destruct (update_iterations fn w) as [obj w1|w1|];
    [| now destruct Hu | contradiction].
  set (st := mkLocals _ _ _ _).
  destruct (show_console_cursor false w1) as [u w2|w2|] eqn:Ec;
    try discriminate.
  assert (Hc : cursor_shown w2 = false) by (now injection Ec as _ <-).
  pose proof (sampling_loop_effects fn fuel st w2) as He.
  destruct (sampling_loop fuel fn st w2) as [r w3|w3|]; auto.
  - reflexivity.
  - destruct He as [-> _]. exact Hc.
Qed.

(** C7, as stated, fails: a callable that throws on its eleventh call, the
    first call made inside the loop, leaves the constructor by that exception
    with the cursor hidden. *)
Lemma cursor_left_hidden_when_callable_throws :
  benchmark round_bound "bench" (throws_at 10) w0 =
    Threw (mkWorld 11 false []) /\
  cursor_shown w0 = true.
Proof.
  split; reflexivity.
Qed.

(** ** A round of a callable that never throws *)

Lemma measure_loop_total d n : forall ds w,
  measure_loop (total d) n ds w =
  Ok (ds ++ map d (seq (calls w) n)) (advance n w).
Proof.
  induction n as [|n IH]; intros ds w.
  - simpl. unfold ret. now rewrite app_nil_r, advance_0.
  - cbn [measure_loop].
    rewrite (bind_Ok _ (timed_call_total d w)), IH, advance_advance.
    simpl. rewrite <- app_assoc, Nat.add_1_r. reflexivity.
Qed.

Lemma skipn_nth_error {A} (l : list A) : forall i a,
  nth_error l i = Some a -> skipn i l = a :: skipn (S i) l.
Proof.
  induction l as [|b l IH]; intros [|i] a H; try discriminate.
  - now injection H as ->.
  - simpl in H. apply IH in H. exact H.
Qed.

Lemma deviation_loop_ok ds m : forall n i E w,
  (i + n <= length ds)%nat ->
  deviation_loop ds m n i E w =
  Ok (fold_left (fun E d => E + (IZR d - m) ^ 2)%R (firstn n (skipn i ds)) E) w.
Proof.
  induction n as [|n IH]; intros i E w Hlen; [reflexivity|].
  cbn [deviation_loop]. unfold at_.
  destruct (nth_error ds i) as [d|] eqn:Ed.
  - rewrite (skipn_nth_error ds i d Ed). unfold bind, ret.
    rewrite IH by lia. reflexivity.
  - apply nth_error_None in Ed. lia.
Qed.

Lemma accumulate_sum_of ds : accumulate ds = sum_of ds.
Proof.
  unfold accumulate.
  enough (H : forall a, fold_left (fun init d => init + IZR d)%R ds a
                        = (a + sum_of ds)%R).
  { rewrite H; lra. }
  induction ds as [|d ds IH]; intros a; simpl; [lra|].
  rewrite IH; lra.
Qed.

Lemma fold_squared_deviations m ds : forall E,
  fold_left (fun E d => E + (IZR d - m) ^ 2)%R ds E =
  (E + squared_deviations m ds)%R.
Proof.
  induction ds as [|d ds IH]; intros E; simpl; [lra|].
  rewrite IH; lra.
Qed.

(** On a sample of exactly [size] durations no [at] throws and the loops
    compute the statistics as they are worded. *)
Lemma reduce_ok ds size w :
  length ds = N.to_nat size ->
  reduce ds size w = Ok (statistics_of ds size) w.
Proof.
  intros Hlen. unfold reduce.
  rewrite (bind_Ok _ (deviation_loop_ok ds _ (N.to_nat size) 0 0%R w
                        ltac:(simpl; lia))).
  unfold ret, statistics_of. cbn [skipn].
  rewrite <- Hlen, firstn_all, fold_squared_deviations, accumulate_sum_of.
  rewrite Rplus_0_l. reflexivity.
Qed.

Lemma reduce_enough ds size w :
  (N.to_nat size <= length ds)%nat ->
  exists stats, reduce ds size w = Ok stats w.
Proof.
  intros Hlen. unfold reduce.
  rewrite (bind_Ok _ (deviation_loop_ok ds _ (N.to_nat size) 0 0%R w
                        ltac:(simpl; lia))).
  eexists; reflexivity.
Qed.

(** One turn of the loop for a callable that never throws: the policy is
    planned afresh from the ten warm-up calls that open the turn, the sample
    is the tick counts of the next [num_iterations_] calls. *)
Lemma loop_body_total d st w :
  let obj := policy_for (estimate_at d (calls w)) in
  let n := N.to_nat (num_iterations_ obj) in
  let sample := map d (seq (calls w + warmup_runs) n) in
  exists stats,
    (durations st = [] -> stats = statistics_of sample (num_iterations_ obj)) /\
    let conv' := save_record (relative_standard_deviation stats)
                   (num_iterations_ obj) (mean stats) (conv st) in
    let p := mkPostfix (num_runs st) (max_num_runs_ obj) (mean_lowest_rsd conv')
               (lowest_rsd conv') (num_iterations_lowest_rsd conv') in
    let bar' := set_progress (num_runs st)
                  (set_max_progress (max_num_runs_ obj) (bar st)) in
    loop_body (total d) st w =
    Ok (obj,
        if (max_num_runs_ obj <=? num_runs st)%N
        then mkLocals conv' (num_runs st) (durations st ++ sample)
               (mark_as_completed bar')
        else mkLocals conv' (size_t_incr (num_runs st)) [] bar',
        (max_num_runs_ obj <=? num_runs st)%N)
       (mkWorld (calls w + warmup_runs + n) (cursor_shown w)
          (postfixes w ++ [p])).
Proof.
  intros obj n sample.
  assert (Hred : exists stats,
             reduce (durations st ++ sample) (num_iterations_ obj)
               (advance n (advance warmup_runs w)) =
             Ok stats (advance n (advance warmup_runs w)) /\
             (durations st = [] ->
              stats = statistics_of sample (num_iterations_ obj))).
  { destruct (durations st) as [|t ts] eqn:Ed.
    - exists (statistics_of sample (num_iterations_ obj)).
      split; [|reflexivity]. simpl. apply reduce_ok.
      unfold sample. now rewrite length_map, length_seq.
    - destruct (reduce_enough (t :: ts ++ sample) (num_iterations_ obj)
                  (advance n (advance warmup_runs w))) as [stats Hs].
      { simpl. rewrite length_app. unfold sample.
        rewrite length_map, length_seq. fold n. lia. }
      exists stats. split; [exact Hs | discriminate]. }
  destruct Hred as (stats & Hred & Hstats).
  exists stats. split; [exact Hstats|]. intros conv' p bar'.
  unfold loop_body.
  rewrite (bind_Ok _ (update_iterations_total d w)).
  fold obj. fold n.
  rewrite (bind_Ok _ (measure_loop_total d n (durations st) _)).
  change (calls (advance warmup_runs w)) with (calls w + warmup_runs)%nat.
  fold sample. rewrite (bind_Ok _ Hred).
  fold conv'. unfold bind, set_postfix_text, ret. fold p.
  destruct (max_num_runs_ obj <=? num_runs st)%N; reflexivity.
Qed.

(** ** Rounds measured against the round budget *)

Lemma estimate_at_observed d c :
  exists k, (c <= k)%nat /\ estimate_at d c = d k.
Proof.
  unfold estimate_at.
  destruct (minimum_In (map d (seq (S c) (pred warmup_runs))) (d c)) as [E|E].
  - now exists c.
  - apply in_map_iff in E. destruct E as (k & E & Hk).
    apply in_seq in Hk. exists k. split; [lia | now symmetry].
Qed.

Lemma sampling_loop_S fuel fn st :
  sampling_loop (S fuel) fn st =
  (r <- loop_body fn st ;;
   let '(obj, st', stopped) := r in
   if stopped then ret (obj, st') else sampling_loop fuel fn st').
Proof. reflexivity. Qed.

(** A callable all of whose calls, from call [c0] on, fall in one latency
    range: from a round counter [k] short of the budget the loop takes
    [k + 1] more turns, each under that budget, and leaves with the counter
    equal to the budget. *)
Lemma constant_policy_rounds d obj0 c0 :
  (forall k, (c0 <= k)%nat -> policy_for (d k) = obj0) ->
  forall k st w,
    (c0 <= calls w)%nat ->
    (num_runs st + N.of_nat k = max_num_runs_ obj0)%N ->
    exists st' ps,
      sampling_loop (S k) (total d) st w =
        Ok (obj0, st')
           (mkWorld
              (calls w + S k * (warmup_runs + N.to_nat (num_iterations_ obj0)))
              (cursor_shown w) (postfixes w ++ ps)) /\
      num_runs st' = max_num_runs_ obj0 /\
      length ps = S k /\
      Forall (fun p => shown_max_num_runs p = max_num_runs_ obj0) ps.
Proof.
  intros Hconst.
  assert (Hplan : forall c, (c0 <= c)%nat ->
                            policy_for (estimate_at d c) = obj0).
  { intros c Hc. destruct (estimate_at_observed d c) as (k & Hk & ->).
    apply Hconst; lia. }
  assert (Hmax : (max_num_runs_ obj0 <= 10000)%N).
  { rewrite <- (Hconst c0 (le_n _)). apply max_num_runs_bound. }
  induction k as [|k IH]; intros st w Hw Hk.
  - destruct (loop_body_total d st w) as (stats & _ & Hb).
    cbn zeta in Hb. rewrite (Hplan _ Hw) in Hb.
    rewrite sampling_loop_S, (bind_Ok _ Hb).
    replace (max_num_runs_ obj0 <=? num_runs st)%N with true
      by (symmetry; apply N.leb_le; lia).
    do 2 eexists. split; [|split; [|split]].
    + unfold ret. do 2 f_equal. lia.
    + cbn [num_runs]. lia.
    + reflexivity.
    + repeat constructor.
  - destruct (loop_body_total d st w) as (stats & _ & Hb).
    cbn zeta in Hb. rewrite (Hplan _ Hw) in Hb.
    rewrite sampling_loop_S, (bind_Ok _ Hb).
    replace (max_num_runs_ obj0 <=? num_runs st)%N with false
      by (symmetry; apply N.leb_gt; lia).
    match goal with
    | |- context [sampling_loop (S k) (total d) ?st1 ?w1] =>
        destruct (IH st1 w1) as (st' & ps & Hl & Hn & Hp & Hall)
    end.
    { cbn [calls]. lia. }
    { cbn [num_runs]. rewrite size_t_incr_small by lia. lia. }
    rewrite Hl. cbn [calls cursor_shown postfixes].
    exists st'. eexists. split; [|split; [|split]].
    + rewrite <- app_assoc. do 2 f_equal. lia.
    + exact Hn.
    + simpl. now rewrite Hp.
    + constructor; [reflexivity|exact Hall].
Qed.

(** C1, on the code: for a callable whose every call falls in one latency
    range, so that every estimate selects the same policy [obj0], the
    constructor ends having measured [max_num_runs_ obj0 + 1] rounds (one
    postfix text each, [10 + num_iterations_ obj0] calls each) and with
    [num_runs = max_num_runs_ obj0]: one round more than the budget and than
    the count it ends with. *)
Theorem constant_latency_measures_budget_plus_one (d : nat -> Z)
    (obj0 : benchmark_obj) (name : string) (w : world) (extra : nat) :
  (forall k, policy_for (d k) = obj0) ->
  let rounds := S (N.to_nat (max_num_runs_ obj0)) in
  exists st w',
    benchmark (rounds + extra) name (total d) w = Ok (obj0, st) w' /\
    num_runs st = max_num_runs_ obj0 /\
    length (postfixes w') = (length (postfixes w) + rounds)%nat /\
    calls w' = (calls w + warmup_runs
                + rounds * (warmup_runs + N.to_nat (num_iterations_ obj0)))%nat /\
    cursor_shown w' = true.
Proof.
  intros Hconst rounds. unfold benchmark.
  rewrite (bind_Ok _ (update_iterations_total d w)).
  unfold show_console_cursor at 1. unfold bind at 1.
  set (st0 := mkLocals _ _ _ _). set (w2 := mkWorld _ false _).
  destruct (constant_policy_rounds d obj0 0 (fun k _ => Hconst k)
              (N.to_nat (max_num_runs_ obj0)) st0 w2 (Nat.le_0_l _))
    as (st' & ps & Hl & Hn & Hp & _).
  { cbn [num_runs st0]. now rewrite N2Nat.id. }
  fold rounds in Hl, Hp.
  rewrite <- (sampling_loop_fuel_mono _ rounds extra) in Hl by now rewrite Hl.
  rewrite (bind_Ok _ Hl).
  do 2 eexists. split; [reflexivity|]. split; [exact Hn|].
  cbn [postfixes calls cursor_shown advance w2].
  rewrite length_app, Hp. repeat split.
Qed.

Lemma constant_latency_measures_budget_plus_one_witness :
  exists st w',
    benchmark 11 "bench" (total two_seconds) w0 = Ok (mkObj 1000 10, st) w' /\
    num_runs st = 10%N /\
    length (postfixes w') = 11%nat /\
    calls w' = (10 + 11 * (10 + 1000))%nat /\
    cursor_shown w' = true.
Proof.
  destruct (constant_latency_measures_budget_plus_one two_seconds
              (mkObj 1000 10) "bench" w0 0 (fun _ => eq_refl))
    as (st & w' & Hb & Hn & Hp & Hc & Hs).
  exists st, w'. exact (conj Hb (conj Hn (conj Hp (conj Hc Hs)))).
Defined.

(** ** Planning before every round *)

Lemma speeds_up_late k :
  (1020 <= k)%nat -> policy_for (speeds_up k) = mkObj 4000 100.
Proof.
  intros Hk. unfold speeds_up.
  destruct (Nat.ltb_spec k 1020); [lia | reflexivity].
Qed.

(** C8: every turn of the loop opens with the planner, which runs the ten
    warm-up calls again: the policy of the turn is the one of the estimate
    taken at the call count the turn starts from, whatever the policy of the
    turn before.  So both fields can change between consecutive rounds: for
    a callable that takes two seconds a call during the first round and five
    milliseconds afterwards, the first round runs 1000 iterations under a
    budget of 10 rounds and the second 4000 iterations under a budget of
    100, and the constructor ends after 101 rounds. *)
Theorem planner_rerun_before_every_round :
  (forall d st w,
     let obj := policy_for (estimate_at d (calls w)) in
     exists st' stopped p,
       loop_body (total d) st w =
       Ok (obj, st', stopped)
          (mkWorld (calls w + warmup_runs + N.to_nat (num_iterations_ obj))
             (cursor_shown w) (postfixes w ++ [p]))) /\
  (forall extra, exists st w',
     benchmark (101 + extra) "bench" (total speeds_up) w0 =
       Ok (mkObj 4000 100, st) w' /\
     map shown_max_num_runs (firstn 2 (postfixes w')) = [10; 100]%N /\
     policy_for (estimate_at speeds_up 10) = mkObj 1000 10 /\
     policy_for (estimate_at speeds_up (10 + (10 + 1000))) = mkObj 4000 100 /\
     length (postfixes w') = 101%nat /\
     calls w' = (10 + (10 + 1000) + 100 * (10 + 4000))%nat /\
     num_runs st = 100%N).
Proof.
  split.
  - intros d st w obj.
    destruct (loop_body_total d st w) as (stats & _ & Hb).
    cbn zeta in Hb. rewrite Hb. do 3 eexists. reflexivity.
  - intros extra. unfold benchmark.
    rewrite (bind_Ok _ (update_iterations_total speeds_up w0)).
    unfold show_console_cursor at 1. unfold bind at 1.
    set (st0 := mkLocals _ _ _ _). set (w2 := mkWorld _ false _).
    assert (Hloop : exists st' p ps,
               sampling_loop (101 + extra) (total speeds_up) st0 w2 =
               Ok (mkObj 4000 100, st')
                  (mkWorld (10 + (10 + 1000) + 100 * (10 + 4000)) false
                     (p :: ps)) /\
               num_runs st' = 100%N /\ length ps = 100%nat /\
               shown_max_num_runs p = 10%N /\
               Forall (fun p => shown_max_num_runs p = 100%N) ps).
    { change (101 + extra)%nat with (S (100 + extra)).
      rewrite sampling_loop_S.
      destruct (loop_body_total speeds_up st0 w2) as (stats & _ & Hb).
      cbn zeta in Hb.
      assert (E1 : policy_for (estimate_at speeds_up (calls w2)) = mkObj 1000 10)
        by (vm_compute; reflexivity).
      rewrite E1 in Hb.
      assert (E2 : (max_num_runs_ (mkObj 1000 10) <=? num_runs st0)%N = false)
        by reflexivity.
      rewrite E2 in Hb.
      rewrite (bind_Ok _ Hb). clear Hb.
      match goal with
      | |- context [sampling_loop _ (total speeds_up) ?st1 ?w1] =>
          destruct (constant_policy_rounds speeds_up (mkObj 4000 100) 1020
                      speeds_up_late 99 st1 w1)
            as (st' & ps & Hl & Hn & Hp & Hall)
      end.
      { apply Nat.eq_le_incl. reflexivity. }
      { reflexivity. }
      rewrite <- (sampling_loop_fuel_mono _ 100 extra) in Hl by now rewrite Hl.
      cbv beta iota. rewrite Hl.
      do 3 eexists. split.
      { match goal with
        | |- Ok _ (mkWorld ?c _ _) = Ok _ (mkWorld ?c' _ _) =>
            replace c with c'; [reflexivity|]
        end.
        cbn [calls num_iterations_]. unfold w2, warmup_runs.
        cbn [calls advance w0].
        change (N.to_nat 1000) with 1000%nat.
        change (N.to_nat 4000) with 4000%nat. lia. }
      split; [exact Hn|]. split; [exact Hp|].
      split; [reflexivity | exact Hall]. }
    destruct Hloop as (st' & p & ps & Hl & Hn & Hp & Hp0 & Hall).
    rewrite (bind_Ok _ Hl).
    do 2 eexists. split; [reflexivity|].
    cbn [postfixes calls cursor_shown].
    destruct ps as [|p1 ps]; [discriminate|].
    apply Forall_inv in Hall.
    split; [simpl; now rewrite Hp0, Hall|].
    split; [vm_compute; reflexivity|].
    split; [vm_compute; reflexivity|].
    split; [change (length (p :: p1 :: ps)) with (S (length (p1 :: ps)));
            now rewrite Hp|].
    split; [reflexivity|exact Hn].
Qed.

(** ** Round statistics *)

Lemma size_to_ld_INR size : size_to_ld size = INR (N.to_nat size).
Proof. unfold size_to_ld. now rewrite INR_IZR_INZ, N_nat_Z. Qed.

Lemma size_to_ld_pos size : (0 < size)%N -> (0 < size_to_ld size)%R.
Proof. intros H. unfold size_to_ld. apply IZR_lt. lia. Qed.

Lemma sum_of_repeat d n : sum_of (repeat d n) = (INR n * IZR d)%R.
Proof.
  induction n as [|n IH]; [simpl; lra|].
  cbn [repeat sum_of fold_right]. fold (sum_of (repeat d n)).
  rewrite IH, S_INR. lra.
Qed.

Lemma squared_deviations_repeat d n :
  squared_deviations (IZR d) (repeat d n) = 0%R.
Proof.
  induction n as [|n IH]; [reflexivity|].
  cbn [repeat squared_deviations fold_right].
  fold (squared_deviations (IZR d) (repeat d n)). rewrite IH. ring.
Qed.

Lemma ld_div_zero_l b : b <> 0%R -> ld_div 0 b = Fin 0.
Proof.
  intros Hb. unfold ld_div. destruct (Req_dec_T b 0); [contradiction|].
  f_equal. unfold Rdiv. ring.
Qed.

Lemma ld_div_zero_zero : ld_div 0 0 = NaN.
Proof.
  unfold ld_div. destruct (Req_dec_T 0 0) as [_|H]; [reflexivity|].
  now contradiction H.
Qed.

(** The statistics of a sample of [size] copies of one tick count. *)
Lemma statistics_of_repeat d size :
  (0 < size)%N ->
  let stats := statistics_of (repeat d (N.to_nat size)) size in
  mean stats = IZR d /\ variance stats = 0%R /\
  standard_deviation stats = 0%R /\
  relative_standard_deviation stats = ld_div 0 (IZR d).
Proof.
  intros Hpos.
  pose proof (size_to_ld_pos size Hpos) as Hs.
  assert (Hm : (sum_of (repeat d (N.to_nat size)) / size_to_ld size)%R = IZR d).
  { rewrite sum_of_repeat, <- size_to_ld_INR. field. lra. }
  assert (Hv : (squared_deviations (IZR d) (repeat d (N.to_nat size))
                / size_to_ld size)%R = 0%R).
  { rewrite squared_deviations_repeat. unfold Rdiv. ring. }
  unfold statistics_of; cbn [mean variance standard_deviation
                               relative_standard_deviation].
  rewrite Hm, Hv, sqrt_0, Rmult_0_l. auto.
Qed.

(** C5, as amended: a round's statistics are mean = sum / N, variance = sum
    of the squared deviations from the mean / N (the population estimator),
    standard deviation = sqrt(variance) and relative standard deviation =
    standard deviation * 100 / mean; a sample of N identical durations has
    variance exactly 0, and relative standard deviation exactly 0 when the
    common duration is not zero. *)
Theorem round_statistics (ds : list Z) (size : N) (w : world) :
  length ds = N.to_nat size ->
  (0 < size)%N ->
  exists stats,
    reduce ds size w = Ok stats w /\
    mean stats = (sum_of ds / size_to_ld size)%R /\
    variance stats =
      (squared_deviations (mean stats) ds / size_to_ld size)%R /\
    standard_deviation stats = sqrt (variance stats) /\
    relative_standard_deviation stats =
      ld_div (standard_deviation stats * 100) (mean stats) /\
    (forall d, ds = repeat d (N.to_nat size) ->
       mean stats = IZR d /\ variance stats = 0%R /\
       (d <> 0%Z -> relative_standard_deviation stats = Fin 0)).
Proof.
  intros Hlen Hpos. exists (statistics_of ds size).
  split; [now apply reduce_ok|].
  repeat (split; [reflexivity|]).
  intros d ->.
  destruct (statistics_of_repeat d size Hpos) as (Hm & Hv & _ & Hr).
  repeat split; auto.
  intros Hd. rewrite Hr. apply ld_div_zero_l.
  now apply not_0_IZR.
Qed.

Lemma round_statistics_witness :
  exists stats,
    reduce [7; 7; 7]%Z 3 w0 = Ok stats w0 /\
    mean stats = (sum_of [7; 7; 7]%Z / size_to_ld 3)%R /\
    variance stats =
      (squared_deviations (mean stats) [7; 7; 7]%Z / size_to_ld 3)%R /\
    standard_deviation stats = sqrt (variance stats) /\
    relative_standard_deviation stats =
      ld_div (standard_deviation stats * 100) (mean stats) /\
    (forall d, [7; 7; 7]%Z = repeat d (N.to_nat 3) ->
       mean stats = IZR d /\ variance stats = 0%R /\
       (d <> 0%Z -> relative_standard_deviation stats = Fin 0)).
Proof.
  apply (round_statistics [7; 7; 7]%Z 3 w0); [reflexivity | lia].
Defined.

(** C5, as stated, fails on a sample of identical durations that are all
    zero: the variance is 0 but the relative standard deviation is
    [0 * 100 / 0], a NaN and not 0. *)
Lemma identical_zero_durations_have_nan_rsd :
  exists stats,
    reduce (all_zero 1000) 1000 w0 = Ok stats w0 /\
    variance stats = 0%R /\
    relative_standard_deviation stats = NaN /\
    relative_standard_deviation stats <> Fin 0.
Proof.
  exists (statistics_of (all_zero 1000) 1000).
  split; [now apply reduce_ok|].
  destruct (statistics_of_repeat 0 1000 eq_refl) as (_ & Hv & _ & Hr).
  change (repeat 0%Z (N.to_nat 1000)) with (all_zero 1000) in Hv, Hr.
  rewrite Hr, ld_div_zero_zero. repeat split; [exact Hv | discriminate].
Qed.

(** ** A round whose mean is zero *)

Lemma save_record_nan n m c :
  save_record NaN n m c =
  mkConv NaN (num_iterations_lowest_rsd c) (mean_lowest_rsd c).
Proof.
  unfold save_record. rewrite std_min_nan_l. reflexivity.
Qed.

Lemma map_immeasurable l : map immeasurable l = repeat 0%Z (length l).
Proof. induction l as [|k l IH]; simpl; [|rewrite IH]; reflexivity. Qed.

(** C6, as amended: when a round's mean is exactly zero the relative
    standard deviation is computed all the same, by a division by zero that
    nothing guards: no exception is raised and the result is a NaN when the
    standard deviation is zero too, and +infinity otherwise.  A NaN then
    becomes [lowest_rsd] and leaves the stored best round as it was. *)
Theorem zero_mean_division_is_unguarded (ds : list Z) (size : N) (w : world) :
  length ds = N.to_nat size ->
  (0 < size)%N ->
  sum_of ds = 0%R ->
  exists stats,
    reduce ds size w = Ok stats w /\
    mean stats = 0%R /\
    relative_standard_deviation stats =
      (if Req_dec_T (standard_deviation stats) 0 then NaN else PInf) /\
    is_finite (relative_standard_deviation stats) = false /\
    (forall n c,
       relative_standard_deviation stats = NaN ->
       save_record (relative_standard_deviation stats) n (mean stats) c =
       mkConv NaN (num_iterations_lowest_rsd c) (mean_lowest_rsd c)).
Proof.
  intros Hlen Hpos Hsum. exists (statistics_of ds size).
  split; [now apply reduce_ok|].
  pose proof (size_to_ld_pos size Hpos) as Hs.
  assert (Hm : mean (statistics_of ds size) = 0%R).
  { cbn [statistics_of mean]. rewrite Hsum. unfold Rdiv. ring. }
  assert (Hr : relative_standard_deviation (statistics_of ds size) =
               if Req_dec_T (standard_deviation (statistics_of ds size)) 0
               then NaN else PInf).
  { unfold statistics_of in *.
    cbn [mean relative_standard_deviation standard_deviation] in *.
    rewrite Hm. set (v := (squared_deviations 0 ds / size_to_ld size)%R).
    pose proof (sqrt_pos v) as Hv. unfold ld_div.
    destruct (Req_dec_T 0 0) as [_|H]; [|now contradiction H].
    destruct (Req_dec_T (sqrt v) 0) as [E|E].
    - destruct (Req_dec_T (sqrt v * 100) 0); [reflexivity|lra].
    - destruct (Req_dec_T (sqrt v * 100) 0); [lra|].
      destruct (Rlt_dec 0 (sqrt v * 100)); [reflexivity|lra]. }
  split; [exact Hm|]. split; [exact Hr|]. split.
  - rewrite Hr. now destruct (Req_dec_T _ 0).
  - intros n c ->. apply save_record_nan.
Qed.

Lemma zero_mean_division_is_unguarded_witness :
  exists stats,
    reduce [0; 0]%Z 2 w0 = Ok stats w0 /\
    mean stats = 0%R /\
    relative_standard_deviation stats =
      (if Req_dec_T (standard_deviation stats) 0 then NaN else PInf) /\
    is_finite (relative_standard_deviation stats) = false /\
    (forall n c,
       relative_standard_deviation stats = NaN ->
       save_record (relative_standard_deviation stats) n (mean stats) c =
       mkConv NaN (num_iterations_lowest_rsd c) (mean_lowest_rsd c)).
Proof.
  apply (zero_mean_division_is_unguarded [0; 0]%Z 2 w0);
    [reflexivity | lia | simpl; lra].
Defined.

(** C6, as stated, fails: for a callable every call of which is measured at
    0 ticks, the first turn of the loop divides by the zero mean without any
    guard; the turn ends normally, with a NaN as [lowest_rsd] and in the
    postfix text handed to the progress bar. *)
Lemma zero_mean_round_stores_nan :
  exists st' w',
    loop_body (total immeasurable) (locals_init "bench" (mkObj 128000 10000))
      (mkWorld 10 false []) = Ok (mkObj 128000 10000, st', false) w' /\
    lowest_rsd (conv st') = NaN /\
    map shown_rsd (postfixes w') = [NaN] /\
    is_finite (lowest_rsd (conv st')) = false.
Proof.
  set (st0 := locals_init _ _). set (w := mkWorld _ _ _).
  destruct (loop_body_total immeasurable st0 w) as (stats & Hstats & Hb).
  specialize (Hstats eq_refl). cbn zeta in Hb.
  assert (E1 : policy_for (estimate_at immeasurable (calls w)) =
               mkObj 128000 10000) by (vm_compute; reflexivity).
  rewrite E1 in Hb, Hstats. cbn [num_iterations_ max_num_runs_] in Hb, Hstats.
  rewrite map_immeasurable, length_seq in Hstats.
  destruct (statistics_of_repeat 0 128000 eq_refl) as (_ & _ & _ & Hr).
  cbn zeta in Hr. rewrite <- Hstats, ld_div_zero_zero in Hr.
  rewrite Hr, save_record_nan in Hb.
  change (10000 <=? num_runs st0)%N with false in Hb.
  rewrite Hb. do 2 eexists. split; [reflexivity|].
  repeat split.
Qed.

(** ** The record of the lowest relative standard deviation *)

Ltac eval_Rltb :=
  repeat match goal with
         | |- context [Rltb ?a ?b] =>
             first [ rewrite (proj2 (Rltb_true a b)) by lra
                   | rewrite (proj2 (Rltb_false a b)) by lra ]
         end.

(** Runs [save_record] and [track] on values that are numerals. *)
Ltac run_record :=
  unfold conv_init, save_record, std_min;
  repeat (cbn [lowest_rsd num_iterations_lowest_rsd mean_lowest_rsd
               round_rsd round_iterations round_mean ld_ltb ld_leb negb];
          eval_Rltb).

Ltac run_track :=
  unfold track; cbn [fold_left]; unfold save_round; run_record.

(** The record is overwritten exactly when the round's value is strictly
    below the lowest so far; otherwise, ties included, it is kept. *)
Lemma save_record_rule rsd n m c :
  (ld_ltb rsd (lowest_rsd c) = true ->
   save_record rsd n m c = mkConv rsd n m) /\
  (ld_ltb rsd (lowest_rsd c) = false ->
   best_round (save_record rsd n m c) = best_round c).
Proof.
  unfold save_record, std_min, best_round. split; intros H.
  - rewrite (ld_ltb_asym _ _ H), H. reflexivity.
  - destruct (ld_ltb (lowest_rsd c) rsd).
    + now rewrite ld_ltb_irrefl.
    + now rewrite H.
Qed.

Lemma save_record_lowest rsd n m c :
  lowest_rsd (save_record rsd n m c) = std_min rsd (lowest_rsd c).
Proof. unfold save_record. now destruct (ld_ltb _ _). Qed.

Lemma std_min_le_r a b :
  is_nan a = false -> is_nan b = false ->
  ld_leb (std_min a b) b = true /\ is_nan (std_min a b) = false.
Proof.
  intros Ha Hb. unfold std_min. destruct (ld_ltb b a) eqn:E.
  - split; [now apply ld_leb_refl | exact Hb].
  - split; [now apply ld_ltb_total | exact Ha].
Qed.

Lemma track_app c past more : track c (past ++ more) = track (track c past) more.
Proof. apply fold_left_app. Qed.

Lemma no_nan_app past more :
  no_nan (past ++ more) = true <-> no_nan past = true /\ no_nan more = true.
Proof. unfold no_nan. rewrite forallb_app. apply andb_true_iff. Qed.

Lemma track_non_increasing more : forall c,
  is_nan (lowest_rsd c) = false -> no_nan more = true ->
  ld_leb (lowest_rsd (track c more)) (lowest_rsd c) = true /\
  is_nan (lowest_rsd (track c more)) = false.
Proof.
  induction more as [|r more IH]; intros c Hc Hm.
  - split; [now apply ld_leb_refl | exact Hc].
  - simpl in Hm. apply andb_true_iff in Hm. destruct Hm as [Hr Hm].
    apply negb_true_iff in Hr.
    destruct (std_min_le_r (round_rsd r) (lowest_rsd c) Hr Hc) as [Hle Hn].
    cbn [track fold_left]. fold (track (save_round c r) more).
    destruct (IH (save_round c r)) as [Hle' Hn']; auto.
    + unfold save_round. now rewrite save_record_lowest.
    + split; [|exact Hn'].
      eapply ld_leb_trans; [exact Hle'|].
      unfold save_round. now rewrite save_record_lowest.
Qed.



Lemma save_round_above_sentinel r :
  is_nan (round_rsd r) = false ->
  ld_ltb (round_rsd r) (Fin 100) = false ->
  save_round conv_init r = conv_init.
Proof.
  intros Hn Hb. unfold save_round, save_record, std_min, conv_init.
  cbn [lowest_rsd num_iterations_lowest_rsd mean_lowest_rsd].
  destruct (round_rsd r) as [x| | |]; try discriminate.
  - simpl in Hb. apply Rltb_false in Hb. cbn [ld_ltb].
    destruct (Rlt_dec 100 x) as [Hx|Hx].
    + eval_Rltb. cbn [ld_ltb]. eval_Rltb. reflexivity.
    + assert (x = 100%R) as -> by lra.
      eval_Rltb. cbn [ld_ltb]. eval_Rltb. reflexivity.
  - cbn [ld_ltb]. eval_Rltb. reflexivity.
Qed.

(** C10, as amended: when no round's relative standard deviation is a NaN
    and none is strictly below the sentinel of 100 %, the record is never
    updated: after any number of rounds the stored mean and iteration count
    are still the 0 and 0 they were initialised to, and [lowest_rsd] is still
    100. *)
Theorem record_untouched_above_sentinel (rounds : list round) :
  no_nan rounds = true ->
  none_below_sentinel rounds = true ->
  best_round (track conv_init rounds) = (0%R, 0%N) /\
  lowest_rsd (track conv_init rounds) = Fin 100.
Proof.
  intros Hn Hb.
  enough (H : track conv_init rounds = conv_init) by (now rewrite H).
  induction rounds as [|r rounds IH]; [reflexivity|].
  simpl in Hn, Hb. apply andb_true_iff in Hn, Hb.
  destruct Hn as [Hn1 Hn], Hb as [Hb1 Hb].
  apply negb_true_iff in Hn1, Hb1.
  cbn [track fold_left]. rewrite (save_round_above_sentinel r Hn1 Hb1).
  now apply IH.
Qed.

Lemma record_untouched_above_sentinel_witness :
  let rounds := [mkRound (Fin 200) 128000 3; mkRound PInf 128000 0;
                 mkRound (Fin 100) 64000 4] in
  no_nan rounds = true /\
  none_below_sentinel rounds = true /\
  best_round (track conv_init rounds) = (0%R, 0%N) /\
  lowest_rsd (track conv_init rounds) = Fin 100.
Proof.
  intros rounds.
  assert (Hb : none_below_sentinel rounds = true).
  { unfold rounds, none_below_sentinel. cbn [forallb round_rsd ld_ltb].
    eval_Rltb. reflexivity. }
  split; [reflexivity|]. split; [exact Hb|].
  apply (record_untouched_above_sentinel rounds); [reflexivity|exact Hb].
Defined.

(** The record the loop ends with is [track] of what the rounds it measured
    handed to lines 144-150, one round per postfix text. *)
Lemma sampling_loop_tracks fn : forall fuel st w obj st' w',
  sampling_loop fuel fn st w = Ok (obj, st') w' ->
  exists rounds,
    conv st' = track (conv st) rounds /\
    length (postfixes w') = (length (postfixes w) + length rounds)%nat /\
    rounds <> [].
Proof.
  induction fuel as [|fuel IH]; intros st w obj st' w' H; [discriminate|].
  rewrite sampling_loop_S in H. unfold bind in H.
  pose proof (loop_body_inv fn st w) as Hb.
  destruct (loop_body fn st w) as [[[obj1 st1] stopped] w1|w1|];
    try discriminate.
  destruct Hb as (_ & (p & Hp & _) & _ & (stats & Hs) & Hstop).
  set (r := mkRound (relative_standard_deviation stats) (num_iterations_ obj1)
              (mean stats)).
  destruct stopped.
  - injection H as <- <- <-. exists [r].
    split; [exact Hs|]. rewrite Hp, length_app. split; [reflexivity|discriminate].
  - apply IH in H. destruct H as (rounds & Hc & Hl & _).
    exists (r :: rounds). split; [|split; [|discriminate]].
    + rewrite Hc, Hs. reflexivity.
    + rewrite Hl, Hp, length_app. simpl. lia.
Qed.

Lemma benchmark_tracks fuel name fn w obj st w' :
  benchmark fuel name fn w = Ok (obj, st) w' ->
  exists rounds, conv st = track conv_init rounds /\ rounds <> [].
Proof.
  unfold benchmark, bind.
  destruct (update_iterations fn w) as [obj0 w1|w1|]; try discriminate.
  destruct (show_console_cursor false w1) as [u w2|w2|]; try discriminate.
  destruct (sampling_loop fuel fn _ w2) as [[obj1 st1] w3|w3|] eqn:El;
    try discriminate.
  intros [= <- <- _].
  apply sampling_loop_tracks in El. destruct El as (rounds & Hc & _ & Hne).
  now exists rounds.
Qed.

(** ** Three rounds of a callable in the first latency range *)

Lemma map_seq_const (d : nat -> Z) v n : forall c,
  (forall k, (c <= k < c + n)%nat -> d k = v) ->
  map d (seq c n) = repeat v n.
Proof.
  induction n as [|n IH]; intros c H; [reflexivity|].
  simpl. rewrite (H c) by lia. f_equal. apply IH. intros k Hk. apply H. lia.
Qed.

Lemma minimum_repeat v n : minimum v (repeat v n) = v.
Proof.
  induction n as [|n IH]; [reflexivity|].
  simpl repeat. rewrite minimum_cons, Z.min_id. exact IH.
Qed.

Lemma estimate_at_const d c v :
  (forall k, (c <= k < c + warmup_runs)%nat -> d k = v) ->
  estimate_at d c = v.
Proof.
  intros H. unfold estimate_at, warmup_runs in *.
  rewrite (H c) by lia.
  rewrite (map_seq_const d v) by (intros k Hk; apply H; lia).
  apply minimum_repeat.
Qed.

(** What [three_rounds] reads at call [k] of round [r]. *)
Lemma three_rounds_at p0 p1 p2 (r : N) k :
  (r <= 2)%N ->
  (round_start r <= k < round_start (r + 1))%nat ->
  three_rounds p0 p1 p2 k =
  let p := if (r =? 0)%N then p0 else if (r =? 1)%N then p1 else p2 in
  if slow_part (Z.of_nat k - Z.of_nat (round_start r)) then fst p else snd p.
Proof.
  intros Hr Hk. unfold round_start in *. unfold three_rounds. cbv zeta.
  assert (Hq : ((Z.of_nat k - 10) / 128010 = Z.of_N r)%Z).
  { symmetry. apply (Z.div_unique _ _ _ (Z.of_nat k - 10 - 128010 * Z.of_N r));
      lia. }
  assert (Ho : ((Z.of_nat k - 10) mod 128010 =
                Z.of_nat k - Z.of_nat (N.to_nat (10 + 128010 * r)))%Z).
  { symmetry.
    apply (Z.mod_unique _ _ (Z.of_N r)); lia. }
  rewrite Hq, Ho.
  assert (Hp : (if (Z.of_N r <=? 0)%Z then p0
                else if (Z.of_N r =? 1)%Z then p1 else p2) =
               (if (r =? 0)%N then p0 else if (r =? 1)%N then p1 else p2)).
  { destruct (N.eqb_spec r 0) as [->|H0]; [reflexivity|].
    destruct (Z.leb_spec (Z.of_N r) 0); [lia|].
    destruct (N.eqb_spec r 1) as [->|H1]; [reflexivity|].
    destruct (Z.eqb_spec (Z.of_N r) 1); [lia|reflexivity]. }
  now rewrite Hp.
Qed.

Lemma round_start_next r :
  round_start (r + 1) =
  (round_start r + warmup_runs + N.to_nat 128000)%nat.
Proof. unfold round_start, warmup_runs. lia. Qed.

Lemma slow_part_spec o :
  slow_part o = true <-> (10 <= o < 25610)%Z.
Proof.
  unfold slow_part. rewrite andb_true_iff, Z.leb_le, Z.ltb_lt. reflexivity.
Qed.

(** Round [r] of [three_rounds]: the warm-up reads the fast tick count, the
    sample is a slow fifth followed by a fast rest. *)
Lemma round_of_three_rounds p0 p1 p2 (r : N) :
  (r <= 2)%N ->
  let d := three_rounds p0 p1 p2 in
  let p := if (r =? 0)%N then p0 else if (r =? 1)%N then p1 else p2 in
  estimate_at d (round_start r) = snd p /\
  map d (seq (round_start r + warmup_runs) (N.to_nat 128000)) =
  two_level (fst p) (snd p).
Proof.
  intros Hr d p.
  assert (Hat : forall k,
             (round_start r <= k < round_start (r + 1))%nat ->
             d k = if slow_part (Z.of_nat k - Z.of_nat (round_start r))
                   then fst p else snd p).
  { intros k Hk. unfold d. now rewrite (three_rounds_at p0 p1 p2 r k Hr Hk). }
  assert (Hfast : forall k o, o = (Z.of_nat k - Z.of_nat (round_start r))%Z ->
                              ~ (10 <= o < 25610)%Z ->
                              slow_part o = false).
  { intros k o _ Ho. destruct (slow_part o) eqn:E; [|reflexivity].
    apply slow_part_spec in E. contradiction. }
  pose proof (round_start_next r) as Hnext. unfold warmup_runs in *.
  split.
  - apply estimate_at_const. intros k Hk. unfold warmup_runs in Hk.
    rewrite Hat by lia. now rewrite (Hfast k) by lia.
  - unfold two_level.
    replace (N.to_nat 128000) with (N.to_nat 25600 + N.to_nat 102400)%nat
      by lia.
    rewrite seq_app, map_app.
    rewrite (map_seq_const d (fst p) (N.to_nat 25600)).
    + rewrite (map_seq_const d (snd p) (N.to_nat 102400)); [reflexivity|].
      intros k Hk. rewrite Hat by lia. now rewrite (Hfast k) by lia.
    + intros k Hk. rewrite Hat by lia.
      now rewrite (proj2 (slow_part_spec _)) by lia.
Qed.

Lemma sum_of_app l1 l2 : sum_of (l1 ++ l2) = (sum_of l1 + sum_of l2)%R.
Proof.
  induction l1 as [|d l1 IH]; simpl; [lra|].
  fold (sum_of (l1 ++ l2)) (sum_of l1). rewrite IH. lra.
Qed.

Lemma squared_deviations_app m l1 l2 :
  squared_deviations m (l1 ++ l2) =
  (squared_deviations m l1 + squared_deviations m l2)%R.
Proof.
  induction l1 as [|d l1 IH]; simpl; [lra|].
  fold (squared_deviations m (l1 ++ l2)) (squared_deviations m l1).
  rewrite IH. lra.
Qed.

Lemma squared_deviations_level m d n :
  squared_deviations m (repeat d n) = (INR n * (IZR d - m) ^ 2)%R.
Proof.
  induction n as [|n IH]; [simpl; lra|].
  cbn [repeat squared_deviations fold_right].
  fold (squared_deviations m (repeat d n)). rewrite IH, S_INR. lra.
Qed.

Lemma INR_to_nat (n : N) : INR (N.to_nat n) = IZR (Z.of_N n).
Proof. now rewrite INR_IZR_INZ, N_nat_Z. Qed.

(** The statistics of a sample in two levels, from its mean [m], its
    variance [v] and the square root [x] of the variance. *)
Lemma statistics_two_level a b m v x :
  (IZR a + 4 * IZR b = 5 * m)%R ->
  ((IZR a - m) ^ 2 + 4 * (IZR b - m) ^ 2 = 5 * v)%R ->
  (0 <= x)%R -> (v = x * x)%R ->
  statistics_of (two_level a b) 128000 = mkStats m v x (ld_div (x * 100) m).
Proof.
  intros Hm Hv Hx Hsq.
  assert (Em : (sum_of (two_level a b) / size_to_ld 128000)%R = m).
  { unfold two_level, size_to_ld.
    rewrite sum_of_app, !sum_of_repeat, !INR_to_nat.
    change (Z.of_N 25600) with 25600%Z. change (Z.of_N 102400) with 102400%Z.
    change (Z.of_N 128000) with 128000%Z. lra. }
  assert (Ev : (squared_deviations m (two_level a b) / size_to_ld 128000)%R
               = v).
  { unfold two_level, size_to_ld.
    rewrite squared_deviations_app, !squared_deviations_level, !INR_to_nat.
    change (Z.of_N 25600) with 25600%Z. change (Z.of_N 102400) with 102400%Z.
    change (Z.of_N 128000) with 128000%Z. lra. }
  unfold statistics_of. rewrite Em, Ev.
  replace (sqrt v) with x; [reflexivity|].
  rewrite Hsq. symmetry. now apply sqrt_square.
Qed.

Lemma ld_div_fin a b c : b <> 0%R -> (a = c * b)%R -> ld_div a b = Fin c.
Proof.
  intros Hb ->. unfold ld_div. destruct (Req_dec_T b 0); [contradiction|].
  f_equal. now field.
Qed.


Lemma statistics_0_0 :
  statistics_of (two_level 0 0) 128000 = mkStats 0 0 0 NaN.
Proof.
  rewrite (statistics_two_level 0 0 0 0 0) by lra.
  f_equal. rewrite Rmult_0_l. apply ld_div_zero_zero.
Qed.

Lemma statistics_5_0 :
  statistics_of (two_level 5 0) 128000 = mkStats 1 4 2 (Fin 200).
Proof.
  rewrite (statistics_two_level 5 0 1 4 2) by lra.
  f_equal. apply ld_div_fin; lra.
Qed.

Lemma statistics_11_1 :
  statistics_of (two_level 11 1) 128000 = mkStats 3 16 4 (Fin (400 / 3)).
Proof.
  rewrite (statistics_two_level 11 1 3 16 4) by lra.
  f_equal. apply ld_div_fin; lra.
Qed.

(** Turn [r] of the loop on [three_rounds], for the rounds 0, 1 and 2. *)
Lemma turn_of_three_rounds p0 p1 p2 (r : N) st w :
  (r <= 2)%N ->
  calls w = round_start r -> durations st = [] -> num_runs st = r ->
  let p := if (r =? 0)%N then p0 else if (r =? 1)%N then p1 else p2 in
  (snd p < 100)%Z ->
  let stats := statistics_of (two_level (fst p) (snd p)) 128000 in
  let conv' := save_record (relative_standard_deviation stats) 128000
                 (mean stats) (conv st) in
  exists bar',
    loop_body (total (three_rounds p0 p1 p2)) st w =
    Ok (mkObj 128000 10000, mkLocals conv' (r + 1) [] bar', false)
       (mkWorld (round_start (r + 1)) (cursor_shown w)
          (postfixes w ++
           [mkPostfix r 10000 (mean_lowest_rsd conv') (lowest_rsd conv')
              (num_iterations_lowest_rsd conv')])).
Proof.
  intros Hr Hc Hd Hn p Hp stats conv'.
  destruct (round_of_three_rounds p0 p1 p2 r Hr) as [He Hsample].
  fold p in He, Hsample.
  destruct (loop_body_total (three_rounds p0 p1 p2) st w) as (s & Hs & Hb).
  specialize (Hs Hd). cbn zeta in Hb. rewrite Hc, He in Hb, Hs.
  assert (Hpol : policy_for (snd p) = mkObj 128000 10000).
  { unfold policy_for. now rewrite (proj2 (Z.ltb_lt _ _) Hp). }
  rewrite Hpol in Hb, Hs. cbn [num_iterations_ max_num_runs_] in Hb, Hs.
  rewrite Hsample in Hs. fold stats in Hs. subst s. fold conv' in Hb.
  rewrite Hn in Hb.
  replace (10000 <=? r)%N with false in Hb
    by (symmetry; apply N.leb_gt; lia).
  rewrite size_t_incr_small in Hb by lia.
  rewrite <- round_start_next in Hb.
  eexists. exact Hb.
Qed.

Lemma bind_congr {A B} (m1 m2 : M A) (k : A -> M B) w1 w2 :
  m1 w1 = m2 w2 -> bind m1 k w1 = bind m2 k w2.
Proof. unfold bind. now intros ->. Qed.

Lemma sampling_loop_continue fuel fn st w obj st' w' :
  loop_body fn st w = Ok (obj, st', false) w' ->
  sampling_loop (S fuel) fn st w = sampling_loop fuel fn st' w'.
Proof. intros H. now rewrite sampling_loop_S, (bind_Ok _ H). Qed.

(** The constructor on a callable that never throws, up to the loop. *)
Lemma benchmark_total fuel name d w :
  benchmark fuel name (total d) w =
  (r <- sampling_loop fuel (total d)
          (locals_init name (policy_for (estimate_at d (calls w)))) ;;
   show_console_cursor true ;;; ret r)
    (mkWorld (calls w + warmup_runs) false (postfixes w)).
Proof.
  unfold benchmark. now rewrite (bind_Ok _ (update_iterations_total d w)).
Qed.


(** Within one execution the record can be updated by a round that is not
    below the sentinel: for the callable [coarse] the first three rounds are
    at NaN, 200 % and 133.3 %, none of them below 100 %, and after the third
    the record holds that round's mean (3) and iteration count (128000). *)
Lemma coarse_first_three_rounds :
  exists st3 w3,
    (forall fuel,
       benchmark (3 + fuel) "bench" (total coarse) w0 =
       (r <- sampling_loop fuel (total coarse) st3 ;;
        show_console_cursor true ;;; ret r) w3) /\
    map shown_rsd (postfixes w3) = [NaN; Fin 200; Fin (400 / 3)] /\
    map shown_mean (postfixes w3) = [0; 0; 3]%R /\
    map shown_N (postfixes w3) = [0; 0; 128000]%N /\
    conv st3 = mkConv (Fin (400 / 3)) 128000 3.
Proof.
  assert (E0 : policy_for (estimate_at coarse (calls w0)) =
               mkObj 128000 10000) by (vm_compute; reflexivity).
  set (st0 := locals_init "bench" (mkObj 128000 10000)).
  set (w := mkWorld 10 false []).
  destruct (turn_of_three_rounds (0, 0)%Z (5, 0)%Z (11, 1)%Z 0 st0 w)
    as (bar1 & H1); try reflexivity; try lia.
  cbn [N.eqb fst snd] in H1. rewrite statistics_0_0 in H1.
  cbn [relative_standard_deviation mean conv st0 locals_init] in H1.
  rewrite save_record_nan in H1.
  cbn [num_iterations_lowest_rsd mean_lowest_rsd lowest_rsd conv_init] in H1.
  match type of H1 with
  | _ = Ok (_, ?st1, _) ?w1 =>
      destruct (turn_of_three_rounds (0, 0)%Z (5, 0)%Z (11, 1)%Z 1 st1 w1)
        as (bar2 & H2); try reflexivity; try lia
  end.
  cbn [N.eqb Pos.eqb fst snd] in H2. rewrite statistics_5_0 in H2.
  cbn [relative_standard_deviation mean conv] in H2.
  assert (E2 : save_record (Fin 200) 128000 1 (mkConv NaN 0 0)
               = mkConv (Fin 200) 0 0) by reflexivity.
  rewrite E2 in H2. clear E2.
  cbn [num_iterations_lowest_rsd mean_lowest_rsd lowest_rsd] in H2.
  match type of H2 with
  | _ = Ok (_, ?st2, _) ?w2 =>
      destruct (turn_of_three_rounds (0, 0)%Z (5, 0)%Z (11, 1)%Z 2 st2 w2)
        as (bar3 & H3); try reflexivity; try lia
  end.
  cbn [N.eqb Pos.eqb fst snd] in H3. rewrite statistics_11_1 in H3.
  cbn [relative_standard_deviation mean conv] in H3.
  assert (E3 : save_record (Fin (400 / 3)) 128000 3 (mkConv (Fin 200) 0 0)
               = mkConv (Fin (400 / 3)) 128000 3)
    by (run_record; reflexivity).
  rewrite E3 in H3. clear E3.
  cbn [num_iterations_lowest_rsd mean_lowest_rsd lowest_rsd] in H3.
  match type of H3 with
  | _ = Ok (_, ?st3, _) ?w3 => exists st3, w3
  end.
  split; [|repeat split].
  intros fuel. rewrite benchmark_total, E0. apply bind_congr.
  change (3 + fuel)%nat with (S (S (S fuel))).
  rewrite (sampling_loop_continue _ _ _ _ _ _ _ H1).
  rewrite (sampling_loop_continue _ _ _ _ _ _ _ H2).
  exact (sampling_loop_continue _ _ _ _ _ _ _ H3).
Qed.

(** ** A NaN in the record *)


(** C10, as stated, fails once a round has a NaN for relative standard
    deviation: after rounds of NaN, 200 % and 150 %, none of which is below
    100 %, the record holds the mean and the iteration count of the third
    round.  Such rounds occur within one execution: the first three rounds
    of [coarse] are at NaN, 200 % and 133.3 %, and the third one's mean and
    iteration count are stored and shown. *)
Lemma record_updated_above_sentinel_after_nan :
  (let rounds := [mkRound NaN 128000 0; mkRound (Fin 200) 128000 3;
                  mkRound (Fin 150) 128000 4] in
   none_below_sentinel rounds = true /\
   track conv_init rounds = mkConv (Fin 150) 128000 4 /\
   best_round (track conv_init rounds) <> (0%R, 0%N)) /\
  (exists st3 w3,
     (forall fuel,
        benchmark (3 + fuel) "bench" (total coarse) w0 =
        (r <- sampling_loop fuel (total coarse) st3 ;;
         show_console_cursor true ;;; ret r) w3) /\
     none_below_sentinel
       [mkRound NaN 128000 0; mkRound (Fin 200) 128000 1;
        mkRound (Fin (400 / 3)) 128000 3] = true /\
     map shown_mean (postfixes w3) = [0; 0; 3]%R /\
     map shown_N (postfixes w3) = [0; 0; 128000]%N /\
     best_round (conv st3) = (3%R, 128000%N)).
Proof.
  split.
  - cbv zeta. split; [|split].
    + unfold none_below_sentinel. cbn [forallb round_rsd ld_ltb].
      eval_Rltb. reflexivity.
    + run_track. reflexivity.
    + run_track. unfold best_round.
      cbn [mean_lowest_rsd num_iterations_lowest_rsd]. intros [= _ H].
  - destruct coarse_first_three_rounds
      as (st3 & w3 & Hrun & _ & Hmean & HN & Hconv).
    exists st3, w3. split; [exact Hrun|]. split; [|split; [exact Hmean|]].
    + unfold none_below_sentinel. cbn [forallb round_rsd ld_ltb].
      eval_Rltb. reflexivity.
    + split; [exact HN|]. now rewrite Hconv.
Qed.

(** * Further properties of the code *)

(** ** Printing a duration *)

Lemma Rltb_cases x y : {Rltb x y = true /\ (x < y)%R} +
                       {Rltb x y = false /\ (y <= x)%R}.
Proof.
  unfold Rltb. destruct (Rlt_dec x y); [left|right]; split; auto; lra.
Qed.

(** X12: [benchmark::duration_to_string] prints [ns] divided by 1000 to the
    power of the rank of the unit it appends (ns, us, ms, s), whatever the
    formatting of numbers does.  From 1 ns to below 10^12 ns the number
    printed is in [1, 1000); a duration below 1000, and so every negative
    one, is printed unscaled in ns; from 10^9 on the unit is s. *)
Theorem duration_to_string_scaling (ns : R) :
  exists (x : R) (k : nat),
    (forall general3,
       duration_to_string general3 ns =
       (general3 x ++ nth k units EmptyString)%string) /\
    (k <= 3)%nat /\
    (ns = x * 1000 ^ k)%R /\
    ((1 <= ns < 10 ^ 12)%R -> (1 <= x < 1000)%R) /\
    ((ns < 1000)%R -> k = 0%nat /\ x = ns) /\
    ((10 ^ 9 <= ns)%R -> k = 3%nat).
Proof.
  unfold duration_to_string.
  destruct (Rltb_cases ns 1000) as [[-> H1]|[-> H1]].
  { exists ns, 0%nat. repeat split; auto; try lra. }
  destruct (Rltb_cases ns 1000000) as [[-> H2]|[-> H2]].
  { exists (ns / 1000)%R, 1%nat. repeat split; auto; try lra. }
  destruct (Rltb_cases ns 1000000000) as [[-> H3]|[-> H3]].
  { exists (ns / 1000000)%R, 2%nat. repeat split; auto; try lra. }
  exists (ns / 1000000000)%R, 3%nat. repeat split; auto; try lra.
Qed.


(** X14: a positive duration and its opposite are printed alike by
    [console_writer::duration_to_string] but for the leading sign. *)
Theorem console_duration_to_string_opposite (fixed0 : R -> string) (ns : R) :
  (0 < ns)%R ->
  exists body,
    console_writer.duration_to_string fixed0 ns = ("+" ++ body)%string /\
    console_writer.duration_to_string fixed0 (- ns) = ("-" ++ body)%string.
Proof.
  intros Hns. unfold console_writer.duration_to_string. cbv zeta.
  rewrite Rabs_Ropp.
  destruct (Rltb_cases ns 0) as [[-> H]|[-> H]]; [lra|].
  destruct (Rltb_cases (- ns) 0) as [[-> H']|[-> H']]; [|lra].
  eexists. split; reflexivity.
Qed.

Lemma console_duration_to_string_opposite_witness :
  exists body,
    console_writer.duration_to_string (fun _ => "2"%string) 2500 =
      ("+" ++ body)%string /\
    console_writer.duration_to_string (fun _ => "2"%string) (- 2500) =
      ("-" ++ body)%string.
Proof.
  apply (console_duration_to_string_opposite (fun _ => "2"%string) 2500).
  lra.
Defined.

(** ** Ordinal numbers *)

Lemma string_length_append (s t : string) :
  String.length (s ++ t) = (String.length s + String.length t)%nat.
Proof. induction s as [|a s IH]; simpl; [reflexivity | now rewrite IH]. Qed.

Lemma string_app_inv_tail (s1 : string) : forall s2 t1 t2,
  String.length t1 = String.length t2 ->
  (s1 ++ t1 = s2 ++ t2)%string -> s1 = s2 /\ t1 = t2.
Proof.
  induction s1 as [|a s1 IH]; intros [|b s2] t1 t2 Hlen H; simpl in *.
  - auto.
  - subst t1. simpl in Hlen. rewrite string_length_append in Hlen. lia.
  - subst t2. simpl in Hlen. rewrite string_length_append in Hlen. lia.
  - injection H as -> H. destruct (IH _ _ _ Hlen H) as [-> ->]. auto.
Qed.

Lemma to_string_inj n m :
  console_writer.to_string n = console_writer.to_string m -> n = m.
Proof.
  unfold console_writer.to_string. intros H.
  apply (f_equal NilEmpty.uint_of_string) in H.
  rewrite !NilEmpty.usu in H. injection H as H.
  now apply Unsigned.to_uint_inj.
Qed.

Lemma mod_10_of_mod_100 n : (n mod 10 = (n mod 100) mod 10)%N.
Proof.
  change 100%N with (10 * 10)%N.
  rewrite N.Div0.mod_mul_r, N.mul_comm, N.Div0.mod_add.
  now rewrite N.Div0.mod_mod.
Qed.

(** X15: [ordinal] never reads past the end of [ends], and appends to the
    decimal digits of [n] the suffix English asks for: "st", "nd", "rd" when
    [n] ends in 1, 2, 3 but not in 11, 12, 13, and "th" in every other
    case. *)
Theorem ordinal_suffix (n : N) :
  exists e,
    console_writer.ordinal n = Some (console_writer.to_string n ++ e)%string /\
    (e = "st"%string <-> (n mod 10 = 1 /\ n mod 100 <> 11)%N) /\
    (e = "nd"%string <-> (n mod 10 = 2 /\ n mod 100 <> 12)%N) /\
    (e = "rd"%string <-> (n mod 10 = 3 /\ n mod 100 <> 13)%N) /\
    (e = "th"%string <->
     ((n mod 10 <> 1 /\ n mod 10 <> 2 /\ n mod 10 <> 3) \/
      (11 <= n mod 100 <= 13))%N).
Proof.
  unfold console_writer.ordinal.
  pose proof (mod_10_of_mod_100 n) as H10.
  pose proof (N.mod_upper_bound n 100 ltac:(discriminate)) as H100.
  pose proof (N.mod_upper_bound (n mod 100) 10 ltac:(discriminate)) as Hq.
  set (r := (n mod 100)%N) in *. rewrite H10. clearbody r. clear H10.
  destruct ((11 <=? r) && (r <=? 13))%N eqn:E.
  - apply andb_true_iff in E. rewrite N.leb_le, N.leb_le in E.
    exists "th"%string. split; [reflexivity|].
    assert (Hr : (r = 11 \/ r = 12 \/ r = 13)%N) by lia.
    destruct Hr as [Hr|[Hr|Hr]]; subst r;
      repeat split; intros; try discriminate; try lia; auto;
        match goal with H : _ /\ _ |- _ => destruct H; try discriminate; lia
        end.
  - assert (Hr : (r < 11 \/ 13 < r)%N).
    { apply andb_false_iff in E. rewrite !N.leb_gt in E. lia. }
    clear E. set (q := (r mod 10)%N) in *. clearbody q.
    assert (Hcases : (q = 0 \/ q = 1 \/ q = 2 \/ q = 3 \/ q = 4 \/ q = 5 \/
                      q = 6 \/ q = 7 \/ q = 8 \/ q = 9)%N) by lia.
    destruct Hcases as [Hc|[Hc|[Hc|[Hc|[Hc|[Hc|[Hc|[Hc|[Hc|Hc]]]]]]]]];
      subst q; cbn [N.to_nat Pos.to_nat Pos.iter_op Nat.add nth_error
                      console_writer.ends];
      eexists; (split; [reflexivity|]);
      repeat split; intros; try discriminate; try lia; auto;
        try (left; lia);
        match goal with
        | H : _ /\ _ |- _ => destruct H; try discriminate; lia
        | H : _ \/ _ |- _ => destruct H; lia
        end.
Qed.

Lemma ordinal_form (n : N) :
  exists e,
    console_writer.ordinal n = Some (console_writer.to_string n ++ e)%string /\
    String.length e = 2%nat.
Proof.
  unfold console_writer.ordinal.
  destruct ((11 <=? n mod 100) && (n mod 100 <=? 13))%N.
  - exists "th"%string. split; reflexivity.
  - pose proof (N.mod_upper_bound n 10 ltac:(discriminate)) as Hq.
    set (q := (n mod 10)%N) in *. clearbody q.
    assert (Hcases : (q = 0 \/ q = 1 \/ q = 2 \/ q = 3 \/ q = 4 \/ q = 5 \/
                      q = 6 \/ q = 7 \/ q = 8 \/ q = 9)%N) by lia.
    destruct Hcases as [Hc|[Hc|[Hc|[Hc|[Hc|[Hc|[Hc|[Hc|[Hc|Hc]]]]]]]]];
      subst q; eexists; split; reflexivity.
Qed.

(** X16: [ordinal] gives distinct numbers distinct labels. *)
Theorem ordinal_distinct (n m : N) :
  n <> m -> console_writer.ordinal n <> console_writer.ordinal m.
Proof.
  intros Hnm H.
  destruct (ordinal_form n) as (e1 & H1 & L1).
  destruct (ordinal_form m) as (e2 & H2 & L2).
  rewrite H1, H2 in H. injection H as H.
  apply string_app_inv_tail in H; [|congruence].
  destruct H as [H _]. apply to_string_inj in H. contradiction.
Qed.

Lemma ordinal_distinct_witness :
  1%N <> 21%N /\ console_writer.ordinal 1 <> console_writer.ordinal 21.
Proof.
  assert (H : 1%N <> 21%N) by discriminate.
  exact (conj H (ordinal_distinct 1 21 H)).
Defined.

(** ** Failure of the callable *)

Lemma calls_return_0 fn c : calls_return fn c 0.
Proof. intros k Hk. lia. Qed.

Lemma calls_return_app fn c n m :
  calls_return fn c n -> calls_return fn (c + n) m ->
  calls_return fn c (n + m).
Proof.
  intros H1 H2 k Hk. destruct (Nat.lt_ge_cases k (c + n)).
  - apply H1. lia.
  - apply H2. lia.
Qed.

Lemma in_sequence_bind {A B} fn (m : M A) (k : A -> M B) w :
  in_sequence fn w (m w) ->
  (forall a w1, m w = Ok a w1 -> in_sequence fn w1 (k a w1)) ->
  in_sequence fn w (bind m k w).
Proof.
  unfold bind. intros Hm Hk.
  destruct (m w) as [a w1|w1|]; auto.
  specialize (Hk a w1 eq_refl). destruct Hm as [Hle Hret].
  destruct (k a w1) as [b w2|w2|]; cbn [in_sequence] in *; auto.
  - destruct Hk as [Hle' Hret']. split; [lia|].
    replace (calls w2 - calls w)%nat
      with ((calls w1 - calls w) + (calls w2 - calls w1))%nat by lia.
    apply calls_return_app; auto.
    now replace (calls w + (calls w1 - calls w))%nat with (calls w1) by lia.
  - destruct Hk as (Hlt & Hnone & Hret'). split; [lia|]. split; [exact Hnone|].
    replace (pred (calls w2) - calls w)%nat
      with ((calls w1 - calls w) + (pred (calls w2) - calls w1))%nat by lia.
    apply calls_return_app; auto.
    now replace (calls w + (calls w1 - calls w))%nat with (calls w1) by lia.
Qed.

Lemma in_sequence_ret {A} fn (a : A) w : in_sequence fn w (ret a w).
Proof.
  cbn [in_sequence ret]. split; [lia|]. rewrite Nat.sub_diag.
  apply calls_return_0.
Qed.

Lemma in_sequence_timed_call fn w : in_sequence fn w (timed_call fn w).
Proof.
  unfold timed_call. destruct (fn (calls w)) as [t|] eqn:E;
    cbn [in_sequence calls Nat.pred].
  - split; [lia|]. intros k Hk. assert (k = calls w) as -> by lia.
    now rewrite E.
  - split; [lia|]. split; [exact E|]. intros k Hk. lia.
Qed.

Lemma in_sequence_warmup_loop fn n : forall result first_run w,
  in_sequence fn w (warmup_loop fn n result first_run w).
Proof.
  induction n as [|n IH]; intros result first_run w.
  - apply in_sequence_ret.
  - cbn [warmup_loop]. apply in_sequence_bind.
    + apply in_sequence_timed_call.
    + intros t w1 _. destruct first_run; apply IH.
Qed.

Lemma in_sequence_measure_loop fn n : forall ds w,
  in_sequence fn w (measure_loop fn n ds w).
Proof.
  induction n as [|n IH]; intros ds w.
  - apply in_sequence_ret.
  - cbn [measure_loop]. apply in_sequence_bind.
    + apply in_sequence_timed_call.
    + intros t w1 _. apply IH.
Qed.

Lemma in_sequence_update_iterations fn w :
  in_sequence fn w (update_iterations fn w).
Proof.
  unfold update_iterations. apply in_sequence_bind.
  - apply in_sequence_warmup_loop.
  - intros e w1 _. apply in_sequence_ret.
Qed.

Lemma timed_call_Ok fn w t w' :
  timed_call fn w = Ok t w' -> w' = advance 1 w.
Proof.
  unfold timed_call, advance. destruct (fn (calls w)); [|discriminate].
  intros [= _ <-]. now rewrite Nat.add_1_r.
Qed.

Lemma warmup_loop_Ok fn n : forall result first_run w e w',
  warmup_loop fn n result first_run w = Ok e w' -> w' = advance n w.
Proof.
  induction n as [|n IH]; intros result first_run w e w' H.
  - injection H as _ <-. now rewrite advance_0.
  - cbn [warmup_loop] in H. unfold bind in H.
    destruct (timed_call fn w) as [t w1|w1|] eqn:Et; try discriminate.
    apply timed_call_Ok in Et. subst w1.
    destruct first_run; apply IH in H; subst w'; now rewrite advance_advance.
Qed.

Lemma measure_loop_Ok fn n : forall ds w ds' w',
  measure_loop fn n ds w = Ok ds' w' ->
  w' = advance n w /\ length ds' = (length ds + n)%nat.
Proof.
  induction n as [|n IH]; intros ds w ds' w' H.
  - injection H as <- <-. rewrite advance_0. split; [reflexivity|lia].
  - cbn [measure_loop] in H. unfold bind in H.
    destruct (timed_call fn w) as [t w1|w1|] eqn:Et; try discriminate.
    apply timed_call_Ok in Et. subst w1.
    apply IH in H. destruct H as [-> Hlen].
    rewrite advance_advance. split; [reflexivity|].
    rewrite Hlen, length_app. simpl. lia.
Qed.

Lemma update_iterations_Ok fn w obj w' :
  update_iterations fn w = Ok obj w' ->
  (exists e, obj = policy_for e) /\ w' = advance warmup_runs w.
Proof.
  intros H. split; [eapply update_iterations_inv; eassumption|].
  unfold update_iterations, estimate_execution_time,
    estimate_execution_time_from, bind in H.
  destruct (warmup_loop fn warmup_runs 0 true w) as [e w1|w1|] eqn:E;
    try discriminate.
  apply warmup_loop_Ok in E. injection H as _ <-. exact E.
Qed.

(** What a turn of the loop that ends normally leaves behind. *)
Lemma loop_body_Ok fn st w obj st' stopped w' :
  loop_body fn st w = Ok (obj, st', stopped) w' ->
  exists e ds' stats,
    obj = policy_for e /\
    length ds' =
      (length (durations st) + N.to_nat (num_iterations_ obj))%nat /\
    let conv' := save_record (relative_standard_deviation stats)
                   (num_iterations_ obj) (mean stats) (conv st) in
    let bar' := set_progress (num_runs st)
                  (set_max_progress (max_num_runs_ obj) (bar st)) in
    stopped = (max_num_runs_ obj <=? num_runs st)%N /\
    st' = (if stopped
           then mkLocals conv' (num_runs st) ds' (mark_as_completed bar')
           else mkLocals conv' (size_t_incr (num_runs st)) [] bar') /\
    w' = mkWorld (calls w + warmup_runs + N.to_nat (num_iterations_ obj))
           (cursor_shown w)
           (postfixes w ++
            [mkPostfix (num_runs st) (max_num_runs_ obj)
               (mean_lowest_rsd conv') (lowest_rsd conv')
               (num_iterations_lowest_rsd conv')]).
Proof.
  unfold loop_body, bind. intros H.
  destruct (update_iterations fn w) as [obj1 w1|w1|] eqn:Eu; try discriminate.
  apply update_iterations_Ok in Eu. destruct Eu as [[e He] ->].
  destruct (measure_loop fn _ _ _) as [ds' w2|w2|] eqn:Em; try discriminate.
  apply measure_loop_Ok in Em. destruct Em as [-> Hlen].
  pose proof (silent_reduce ds' (num_iterations_ obj1)
                (advance (N.to_nat (num_iterations_ obj1))
                   (advance warmup_runs w))) as Hs.
  destruct (reduce ds' _ _) as [stats w3|w3|] eqn:Er; try discriminate.
  destruct Hs as [Hc Hp].
  assert (Hcalls : calls w3 =
                   (calls w + warmup_runs + N.to_nat (num_iterations_ obj1))%nat).
  { unfold reduce, bind in Er.
    destruct (deviation_loop _ _ _ _ _ _) as [E w4|w4|] eqn:Ed;
      try discriminate.
    injection Er as _ <-.
    rewrite deviation_loop_ok in Ed.
    - now injection Ed as _ <-.
    - simpl. lia. }
  unfold set_postfix_text, ret in H.
  exists e, ds', stats.
  destruct (max_num_runs_ obj1 <=? num_runs st)%N eqn:El;
    injection H as <- <- <- <-; rewrite El;
    (split; [exact He|]); (split; [exact Hlen|]); cbv zeta;
    (split; [reflexivity|]); (split; [reflexivity|]);
    rewrite Hcalls, Hc, Hp; reflexivity.
Qed.

Lemma in_sequence_loop_body fn st w :
  durations st = [] -> in_sequence fn w (loop_body fn st w).
Proof.
  intros Hd. unfold loop_body. apply in_sequence_bind.
  { apply in_sequence_update_iterations. }
  intros obj w1 _. apply in_sequence_bind.
  { apply in_sequence_measure_loop. }
  intros ds' w2 Hm. apply measure_loop_Ok in Hm. destruct Hm as [_ Hlen].
  rewrite Hd in Hlen. simpl in Hlen.
  rewrite (bind_Ok _ (reduce_ok ds' (num_iterations_ obj) w2 Hlen)).
  unfold bind, set_postfix_text.
  destruct (max_num_runs_ obj <=? num_runs st)%N;
    cbn [ret in_sequence calls]; (split; [lia|]);
    rewrite Nat.sub_diag; apply calls_return_0.
Qed.

Lemma in_sequence_sampling_loop fn : forall fuel st w,
  durations st = [] -> in_sequence fn w (sampling_loop fuel fn st w).
Proof.
  induction fuel as [|fuel IH]; intros st w Hd; [exact I|].
  rewrite sampling_loop_S. apply in_sequence_bind.
  { now apply in_sequence_loop_body. }
  intros [[obj st'] stopped] w1 Hb. destruct stopped.
  - apply in_sequence_ret.
  - apply IH. apply loop_body_Ok in Hb.
    destruct Hb as (e & ds' & stats & _ & _ & Hb). cbv zeta in Hb.
    destruct Hb as (_ & -> & _). reflexivity.
Qed.

Lemma in_sequence_benchmark fuel name fn w :
  in_sequence fn w (benchmark fuel name fn w).
Proof.
  unfold benchmark. apply in_sequence_bind.
  { apply in_sequence_update_iterations. }
  intros obj w1 _. apply in_sequence_bind.
  { cbn [show_console_cursor in_sequence calls]. split; [lia|].
    rewrite Nat.sub_diag. apply calls_return_0. }
  intros u w2 _. apply in_sequence_bind.
  { now apply in_sequence_sampling_loop. }
  intros r w3 _. apply in_sequence_bind.
  { cbn [show_console_cursor in_sequence calls]. split; [lia|].
    rewrite Nat.sub_diag. apply calls_return_0. }
  intros u' w4 _. apply in_sequence_ret.
Qed.

(** X1: when one of the ten warm-up calls throws, the estimator throws with
    it: the calls before it have been made, none after it, and no estimate
    comes out. *)
Theorem estimate_throws_at_first_failure (fn : callable) (w : world)
    (i : nat) :
  (i < warmup_runs)%nat ->
  calls_return fn (calls w) i ->
  fn (calls w + i)%nat = None ->
  estimate_execution_time fn w = Threw (advance (S i) w).
Proof.
  intros Hi Hret Hnone.
  pose proof (in_sequence_warmup_loop fn warmup_runs 0%Z true w) as Hseq.
  pose proof (silent_warmup_loop fn warmup_runs 0%Z true w) as Hs.
  unfold estimate_execution_time, estimate_execution_time_from.
  destruct (warmup_loop fn warmup_runs 0 true w) as [e w'|w'|] eqn:E.
  - apply warmup_loop_Ok in E. subst w'.
    destruct Hseq as [_ Hall]. exfalso. apply (Hall (calls w + i)%nat).
    + cbn [advance calls]. lia.
    + exact Hnone.
  - destruct Hseq as (Hlt & Hlast & Hbefore).
    assert (Hc : calls w' = S (calls w + i)).
    { destruct (Nat.lt_trichotomy (pred (calls w')) (calls w + i))
        as [Hl|[He|Hg]].
      - exfalso. apply (Hret (pred (calls w'))); [lia|exact Hlast].
      - lia.
      - exfalso. apply (Hbefore (calls w + i)%nat); [lia|exact Hnone]. }
    destruct Hs as [Hcur Hpost].
    f_equal. destruct w' as [c cur post]. unfold advance.
    cbn [calls cursor_shown postfixes] in *. subst. f_equal. lia.
  - contradiction.
Qed.

Lemma estimate_throws_at_first_failure_witness :
  estimate_execution_time (throws_at 3) w0 = Threw (advance 4 w0).
Proof.
  apply (estimate_throws_at_first_failure (throws_at 3) w0 3).
  - unfold warmup_runs. lia.
  - intros k Hk. unfold throws_at.
    destruct (Nat.eqb_spec k 3); [simpl in Hk; lia | discriminate].
  - reflexivity.
Defined.

(** X3: the constructor throws only with the callable: when it ends by an
    exception, the last call made is one that threw and every call before it
    returned, so that no call is made again or skipped and none follows the
    failure; [durations.at(i)] is never out of range.  When it ends normally
    every call made has returned. *)
Theorem exception_comes_from_the_callable (fuel : nat) (name : string)
    (fn : callable) (w : world) :
  match benchmark fuel name fn w with
  | Ok _ w' =>
      (calls w <= calls w')%nat /\
      calls_return fn (calls w) (calls w' - calls w)
  | Threw w' =>
      (calls w < calls w')%nat /\
      fn (pred (calls w')) = None /\
      calls_return fn (calls w) (pred (calls w') - calls w)
  | OutOfFuel => True
  end.
Proof. exact (in_sequence_benchmark fuel name fn w). Qed.

(** ** The state the loop ends in *)

Lemma policy_bounds e :
  (1000 <= num_iterations_ (policy_for e) <= 128000)%N /\
  (10 <= max_num_runs_ (policy_for e) <= 10000)%N.
Proof.
  destruct (policy_for_cases e) as [H|[H|[H|[H|H]]]]; rewrite H; simpl; lia.
Qed.

Lemma benchmark_Ok_inv fuel name fn w obj st w' :
  benchmark fuel name fn w = Ok (obj, st) w' ->
  exists e w3,
    sampling_loop fuel fn (locals_init name (policy_for e))
      (mkWorld (calls w + warmup_runs) false (postfixes w)) = Ok (obj, st) w3 /\
    w' = mkWorld (calls w3) true (postfixes w3).
Proof.
  unfold benchmark, bind. intros H.
  destruct (update_iterations fn w) as [obj0 w1|w1|] eqn:Eu; try discriminate.
  apply update_iterations_Ok in Eu. destruct Eu as [[e ->] ->].
  unfold show_console_cursor at 1 in H.
  destruct (sampling_loop fuel fn _ _) as [[obj1 st1] w3|w3|] eqn:El;
    try discriminate.
  injection H as <- <- <-. exists e, w3. split; [exact El|reflexivity].
Qed.

(** From a turn that starts with an empty sample to the end of the loop. *)
Lemma sampling_loop_exit fn : forall fuel st w obj st' w',
  durations st = [] -> (num_runs st <= 10000)%N ->
  sampling_loop fuel fn st w = Ok (obj, st') w' ->
  exists front,
    postfixes w' =
      postfixes w ++ front ++
      [mkPostfix (num_runs st') (max_num_runs_ obj)
         (mean_lowest_rsd (conv st')) (lowest_rsd (conv st'))
         (num_iterations_lowest_rsd (conv st'))] /\
    cursor_shown w' = cursor_shown w /\
    map shown_num_runs front = N_seq (num_runs st) (length front) /\
    Forall (fun p => (shown_num_runs p < shown_max_num_runs p)%N) front /\
    num_runs st' = (num_runs st + N.of_nat (length front))%N /\
    (max_num_runs_ obj <= num_runs st' <= 10000)%N /\
    (exists e, obj = policy_for e) /\
    bar st' = mkBar (prefix_text (bar st)) (max_num_runs_ obj)
                (num_runs st') true /\
    length (durations st') = N.to_nat (num_iterations_ obj) /\
    (N.of_nat (calls w) + (N.of_nat (length front) + 1) * 1010
     <= N.of_nat (calls w')
     <= N.of_nat (calls w) + (N.of_nat (length front) + 1) * 128010)%N.
Proof.
  induction fuel as [|fuel IH]; intros st w obj st' w' Hd Hn H;
    [discriminate|].
  rewrite sampling_loop_S in H. unfold bind in H.
  destruct (loop_body fn st w) as [[[obj1 st1] stopped] w1|w1|] eqn:Eb;
    try discriminate.
  apply loop_body_Ok in Eb.
  destruct Eb as (e & ds' & stats & He & Hlen & Hb). cbv zeta in Hb.
  destruct Hb as (Hstop & Hst1 & Hw1).
  destruct (policy_bounds e) as [Hit Hmax]. rewrite <- He in Hit, Hmax.
  assert (Hcalls : (N.of_nat (calls w1) =
                    N.of_nat (calls w) + 10 + num_iterations_ obj1)%N).
  { rewrite Hw1. cbn [calls]. unfold warmup_runs. lia. }
  destruct stopped.
  - injection H as <- <- <-. symmetry in Hstop. apply N.leb_le in Hstop.
    exists []. rewrite Hst1, Hw1. cbn [conv num_runs durations bar postfixes
                                     cursor_shown length map N_seq app].
    rewrite Hd in Hlen. simpl in Hlen.
    unfold warmup_runs. cbn [calls N.of_nat].
    repeat split; try lia; auto.
    now exists e.
  - symmetry in Hstop. apply N.leb_gt in Hstop.
    assert (Hn1 : num_runs st1 = (num_runs st + 1)%N).
    { rewrite Hst1. cbn [num_runs]. apply size_t_incr_small. lia. }
    apply IH in H; [| now rewrite Hst1 | lia].
    destruct H as (front & Hp & Hc & Hseq & Hall & Hn' & Hexit & Hpol & Hbar
                   & Hdur & Hcalls').
    exists (mkPostfix (num_runs st) (max_num_runs_ obj1)
              (mean_lowest_rsd (conv st1)) (lowest_rsd (conv st1))
              (num_iterations_lowest_rsd (conv st1)) :: front).
    split; [|split; [|split; [|split; [|split; [|split; [|split;
      [|split; [|split]]]]]]]].
    + rewrite Hp, Hw1. cbn [postfixes]. rewrite <- app_assoc.
      rewrite Hst1. reflexivity.
    + rewrite Hc, Hw1. reflexivity.
    + cbn [map shown_num_runs length N_seq]. f_equal.
      rewrite Hseq, Hn1. now rewrite N.add_1_r.
    + constructor; [exact Hstop | exact Hall].
    + rewrite Hn', Hn1. cbn [length]. lia.
    + exact Hexit.
    + exact Hpol.
    + rewrite Hbar, Hst1. reflexivity.
    + exact Hdur.
    + cbn [length]. lia.
Qed.

Lemma N_seq_app start n m :
  N_seq start (n + m) = N_seq start n ++ N_seq (start + N.of_nat n) m.
Proof.
  revert start. induction n as [|n IH]; intros start.
  - simpl. now rewrite N.add_0_r.
  - cbn [Nat.add N_seq app]. f_equal. rewrite IH. do 2 f_equal. lia.
Qed.

(** A callable that never throws takes the constructor to its normal end. *)
Lemma total_callable_completes d name w :
  exists obj st w',
    benchmark round_bound name (total d) w = Ok (obj, st) w'.
Proof.
  rewrite benchmark_total.
  set (st0 := locals_init _ _). set (w2 := mkWorld _ _ _).
  pose proof (sampling_loop_terminates (total d) round_bound st0 w2) as Ht.
  pose proof (in_sequence_sampling_loop (total d) round_bound st0 w2 eq_refl)
    as Hs.
  unfold bind.
  destruct (sampling_loop round_bound (total d) st0 w2) as [[obj st] w3|w3|].
  - do 3 eexists. reflexivity.
  - destruct Hs as (_ & Hnone & _). discriminate.
  - assert (false = true); [|discriminate].
    apply Ht; unfold round_bound; rewrite ?N2Nat.id; simpl; lia.
Qed.

(** X4: a callable that never throws takes the constructor to its normal
    end, with the cursor shown again: no bounds check of [durations.at(i)]
    fails, and the fuel of 10001 turns is never short. *)
Theorem never_throwing_callable_completes (d : nat -> Z) (name : string)
    (w : world) :
  exists obj st w',
    benchmark round_bound name (total d) w = Ok (obj, st) w' /\
    cursor_shown w' = true /\
    (forall extra,
       benchmark (round_bound + extra) name (total d) w = Ok (obj, st) w').
Proof.
  destruct (total_callable_completes d name w) as (obj & st & w' & H).
  exists obj, st, w'. split; [exact H|]. split.
  - apply benchmark_Ok_inv in H. destruct H as (e & w3 & _ & ->).
    reflexivity.
  - intros extra. rewrite <- H, !benchmark_total. apply bind_congr.
    apply sampling_loop_fuel_mono.
    apply sampling_loop_terminates; unfold round_bound; rewrite ?N2Nat.id;
      simpl; lia.
Qed.

(** X5: when the constructor ends normally, the number of rounds measured
    (one postfix text each) is [num_runs + 1], with [num_runs] at least the
    budget of the last round, at least 10 and at most 10000; the bar is
    marked completed with [num_runs] as progress and that budget as maximum;
    and [durations] still holds the sample of the last round, as many
    durations as its iteration count. *)
Theorem normal_exit_state (fuel : nat) (name : string) (fn : callable)
    (w : world) (obj : benchmark_obj) (st : locals) (w' : world) :
  benchmark fuel name fn w = Ok (obj, st) w' ->
  (exists e, obj = policy_for e) /\
  (max_num_runs_ obj <= num_runs st <= 10000)%N /\
  (10 <= num_runs st)%N /\
  length (postfixes w') =
    (length (postfixes w) + N.to_nat (num_runs st) + 1)%nat /\
  bar st = mkBar (name ++ " ")%string (max_num_runs_ obj) (num_runs st) true /\
  length (durations st) = N.to_nat (num_iterations_ obj) /\
  cursor_shown w' = true.
Proof.
  intros H. apply benchmark_Ok_inv in H. destruct H as (e0 & w3 & Hl & ->).
  apply sampling_loop_exit in Hl; [|reflexivity|simpl; lia].
  destruct Hl as (front & Hp & _ & _ & _ & Hn & Hexit & [e He] & Hbar & Hdur
                  & _).
  cbn [num_runs locals_init postfixes bar prefix_text] in *.
  destruct (policy_bounds e) as [_ Hmax]. rewrite <- He in Hmax.
  split; [now exists e|]. split; [exact Hexit|]. split; [lia|].
  split; [|split; [exact Hbar|split; [exact Hdur|reflexivity]]].
  rewrite Hp, !length_app. simpl. lia.
Qed.

Lemma normal_exit_state_witness :
  exists obj st w',
    benchmark round_bound "bench" (total two_seconds) w0 = Ok (obj, st) w' /\
    (exists e, obj = policy_for e) /\
    (max_num_runs_ obj <= num_runs st <= 10000)%N /\
    (10 <= num_runs st)%N /\
    length (postfixes w') =
      (length (postfixes w0) + N.to_nat (num_runs st) + 1)%nat /\
    bar st = mkBar ("bench" ++ " ")%string (max_num_runs_ obj) (num_runs st)
               true /\
    length (durations st) = N.to_nat (num_iterations_ obj) /\
    cursor_shown w' = true.
Proof.
  destruct (total_callable_completes two_seconds "bench" w0)
    as (obj & st & w' & H).
  exists obj, st, w'.
  exact (conj H (normal_exit_state _ _ _ _ _ _ _ H)).
Defined.

(** X6: the postfix texts of a run that ends normally count the rounds from
    0: the text of round [k] shows [k] as round number; on every text but
    the last that number is below the budget shown beside it, on the last it
    has reached it, and the last text shows the record the loop ends with. *)
Theorem progress_shown (fuel : nat) (name : string) (fn : callable)
    (w : world) (obj : benchmark_obj) (st : locals) (w' : world) :
  benchmark fuel name fn w = Ok (obj, st) w' ->
  exists front final,
    postfixes w' = postfixes w ++ front ++ [final] /\
    map shown_num_runs (front ++ [final]) = N_seq 0 (S (length front)) /\
    Forall (fun p => (shown_num_runs p < shown_max_num_runs p)%N) front /\
    (shown_max_num_runs final <= shown_num_runs final)%N /\
    final = mkPostfix (num_runs st) (max_num_runs_ obj)
              (mean_lowest_rsd (conv st)) (lowest_rsd (conv st))
              (num_iterations_lowest_rsd (conv st)).
Proof.
  intros H. apply benchmark_Ok_inv in H. destruct H as (e0 & w3 & Hl & ->).
  apply sampling_loop_exit in Hl; [|reflexivity|simpl; lia].
  destruct Hl as (front & Hp & _ & Hseq & Hall & Hn & Hexit & _).
  cbn [num_runs locals_init postfixes] in *.
  exists front. eexists. split; [exact Hp|].
  split; [|split; [exact Hall|split; [cbn [shown_max_num_runs shown_num_runs];
                                      lia|reflexivity]]].
  rewrite map_app, Hseq. cbn [map shown_num_runs].
  replace (S (length front)) with (length front + 1)%nat by lia.
  rewrite N_seq_app. cbn [N_seq]. now rewrite Hn.
Qed.

Lemma progress_shown_witness :
  exists obj st w',
    benchmark round_bound "bench" (total two_seconds) w0 = Ok (obj, st) w' /\
    exists front final,
      postfixes w' = postfixes w0 ++ front ++ [final] /\
      map shown_num_runs (front ++ [final]) = N_seq 0 (S (length front)) /\
      Forall (fun p => (shown_num_runs p < shown_max_num_runs p)%N) front /\
      (shown_max_num_runs final <= shown_num_runs final)%N /\
      final = mkPostfix (num_runs st) (max_num_runs_ obj)
                (mean_lowest_rsd (conv st)) (lowest_rsd (conv st))
                (num_iterations_lowest_rsd (conv st)).
Proof.
  destruct (total_callable_completes two_seconds "bench" w0)
    as (obj & st & w' & H).
  exists obj, st, w'.
  exact (conj H (progress_shown _ _ _ _ _ _ _ H)).
Defined.

(** X7: a run that ends normally has called the callable 10 times before
    the loop and between 1010 and 128010 times in each of its
    [num_runs + 1] rounds: at least 11120 times and at most 1280228020
    times in all. *)
Theorem calls_made (fuel : nat) (name : string) (fn : callable)
    (w : world) (obj : benchmark_obj) (st : locals) (w' : world) :
  benchmark fuel name fn w = Ok (obj, st) w' ->
  (10 + (num_runs st + 1) * 1010 <= N.of_nat (calls w' - calls w)
   <= 10 + (num_runs st + 1) * 128010)%N /\
  (11120 <= N.of_nat (calls w' - calls w) <= 1280228020)%N.
Proof.
  intros H. apply benchmark_Ok_inv in H. destruct H as (e0 & w3 & Hl & ->).
  apply sampling_loop_exit in Hl; [|reflexivity|simpl; lia].
  destruct Hl as (front & _ & _ & _ & _ & Hn & Hexit & [e He] & _ & _ & Hc).
  cbn [num_runs locals_init calls] in *.
  destruct (policy_bounds e) as [_ Hmax]. rewrite <- He in Hmax.
  unfold warmup_runs in Hc. lia.
Qed.

Lemma calls_made_witness :
  exists obj st w',
    benchmark round_bound "bench" (total two_seconds) w0 = Ok (obj, st) w' /\
    (10 + (num_runs st + 1) * 1010 <= N.of_nat (calls w' - calls w0)
     <= 10 + (num_runs st + 1) * 128010)%N /\
    (11120 <= N.of_nat (calls w' - calls w0) <= 1280228020)%N.
Proof.
  destruct (total_callable_completes two_seconds "bench" w0)
    as (obj & st & w' & H).
  exists obj, st, w'.
  exact (conj H (calls_made _ _ _ _ _ _ _ H)).
Defined.

(** ** The policy table *)

(** X2: the planner never gives a slower callable more work: from an
    estimate to a larger one neither the iterations per round nor the round
    budget grow, and both stay positive. *)
Theorem policy_antitone (e1 e2 : Z) :
  (e1 <= e2)%Z ->
  (0 < num_iterations_ (policy_for e2) <= num_iterations_ (policy_for e1))%N /\
  (0 < max_num_runs_ (policy_for e2) <= max_num_runs_ (policy_for e1))%N.
Proof.
  intros H. unfold policy_for.
  repeat match goal with
         | |- context [Z.ltb ?a ?b] => destruct (Z.ltb_spec a b)
         end; simpl; lia.
Qed.

Lemma policy_antitone_witness :
  (50 <= 5000)%Z /\
  (0 < num_iterations_ (policy_for 5000) <= num_iterations_ (policy_for 50))%N /\
  (0 < max_num_runs_ (policy_for 5000) <= max_num_runs_ (policy_for 50))%N.
Proof.
  assert (H : (50 <= 5000)%Z) by lia.
  exact (conj H (policy_antitone 50 5000 H)).
Defined.

(** ** Which round the record keeps *)

Lemma ld_ltb_leb_trans a b c :
  ld_ltb a b = true -> ld_leb b c = true -> ld_ltb a c = true.
Proof.
  destruct a, b, c; simpl; auto; try discriminate.
  rewrite !Rltb_true, negb_true_iff, Rltb_false. lra.
Qed.

(** Without NaN, two values neither of which is below the other are the
    same. *)
Lemma ld_not_ltb_eq a b :
  is_nan a = false -> is_nan b = false ->
  ld_ltb a b = false -> ld_ltb b a = false -> a = b.
Proof.
  destruct a, b; simpl; auto; try discriminate.
  rewrite !Rltb_false. intros _ _ H1 H2. f_equal. lra.
Qed.

Lemma save_round_not_lower c r :
  is_nan (lowest_rsd c) = false -> is_nan (round_rsd r) = false ->
  ld_ltb (round_rsd r) (lowest_rsd c) = false ->
  save_round c r = c.
Proof.
  intros Hc Hr Hlt. unfold save_round, save_record, std_min.
  destruct (ld_ltb (lowest_rsd c) (round_rsd r)) eqn:E.
  - rewrite ld_ltb_irrefl. now destruct c.
  - rewrite Hlt. rewrite (ld_not_ltb_eq _ _ Hr Hc Hlt E). now destruct c.
Qed.

Lemma none_below_sentinel_app l1 l2 :
  none_below_sentinel (l1 ++ l2) = true <->
  none_below_sentinel l1 = true /\ none_below_sentinel l2 = true.
Proof. unfold none_below_sentinel. rewrite forallb_app. apply andb_true_iff. Qed.

(** X8: as long as no round's relative standard deviation is a NaN, the
    record the loop keeps is that of the first round that reached the lowest
    value: [lowest_rsd] is at most 100 and at most every round's value;
    either no round was below 100 and the record is the initial one, or the
    record is exactly the value, iteration count and mean of one round,
    which is below 100 and strictly below every round before it. *)
Theorem record_is_first_lowest_round (rounds : list round) :
  no_nan rounds = true ->
  let c := track conv_init rounds in
  ld_leb (lowest_rsd c) (Fin 100) = true /\
  Forall (fun r => ld_leb (lowest_rsd c) (round_rsd r) = true) rounds /\
  ((c = conv_init /\ none_below_sentinel rounds = true) \/
   (exists pre r post,
      rounds = pre ++ r :: post /\
      c = mkConv (round_rsd r) (round_iterations r) (round_mean r) /\
      ld_ltb (round_rsd r) (Fin 100) = true /\
      Forall (fun r' => ld_ltb (round_rsd r) (round_rsd r') = true) pre)).
Proof.
  induction rounds as [|r rounds IH] using rev_ind; intros Hn c.
  - subst c. cbn [track fold_left]. split; [|split; [constructor|left]].
    + unfold conv_init. cbn [lowest_rsd ld_leb]. eval_Rltb. reflexivity.
    + split; reflexivity.
  - apply no_nan_app in Hn. destruct Hn as [Hn Hr].
    simpl in Hr. rewrite andb_true_r in Hr. apply negb_true_iff in Hr.
    specialize (IH Hn). cbv zeta in IH. destruct IH as (H100 & Hall & Hrec).
    subst c. rewrite track_app. cbn [track fold_left].
    fold (track conv_init rounds). set (c0 := track conv_init rounds) in *.
    assert (Hc0 : is_nan (lowest_rsd c0) = false).
    { now destruct (track_non_increasing rounds conv_init eq_refl Hn). }
    destruct (ld_ltb (round_rsd r) (lowest_rsd c0)) eqn:E.
    + destruct (save_record_rule (round_rsd r) (round_iterations r)
                  (round_mean r) c0) as [Hnew _].
      unfold save_round. rewrite (Hnew E). cbn [lowest_rsd].
      assert (Hlt100 : ld_ltb (round_rsd r) (Fin 100) = true).
      { exact (ld_ltb_leb_trans _ _ _ E H100). }
      split; [|split].
      * destruct (round_rsd r); simpl in *; try discriminate; auto.
        apply negb_true_iff, Rltb_false. apply Rltb_true in Hlt100. lra.
      * apply Forall_app. split.
        -- eapply Forall_impl; [|exact Hall]. cbv beta. intros r' Hr'.
           destruct (round_rsd r), (lowest_rsd c0), (round_rsd r');
             simpl in *; try discriminate; auto.
           rewrite negb_true_iff, Rltb_false in *. apply Rltb_true in E. lra.
        -- constructor; [|constructor]. now apply ld_leb_refl.
      * right. exists rounds, r, []. repeat split; auto.
        eapply Forall_impl; [|exact Hall]. cbv beta. intros r' Hr'.
        exact (ld_ltb_leb_trans _ _ _ E Hr').
    + rewrite (save_round_not_lower c0 r Hc0 Hr E).
      split; [exact H100|]. split.
      * apply Forall_app. split; [exact Hall|].
        constructor; [|constructor]. now apply ld_ltb_total.
      * destruct Hrec as [[Hinit Hnone]|(pre & r0 & post & -> & Hc & Hlt & Hpre)].
        -- left. split; [exact Hinit|].
           apply none_below_sentinel_app. split; [exact Hnone|].
           simpl. rewrite andb_true_r. apply negb_true_iff.
           rewrite Hinit in E. exact E.
        -- right. exists pre, r0, (post ++ [r]).
           rewrite <- app_assoc. repeat split; auto.
Qed.

Lemma record_is_first_lowest_round_witness :
  let rounds := [mkRound (Fin 50) 1000 7; mkRound PInf 4000 0;
                 mkRound (Fin 50) 4000 9] in
  let c := track conv_init rounds in
  ld_leb (lowest_rsd c) (Fin 100) = true /\
  Forall (fun r => ld_leb (lowest_rsd c) (round_rsd r) = true) rounds /\
  ((c = conv_init /\ none_below_sentinel rounds = true) \/
   (exists pre r post,
      rounds = pre ++ r :: post /\
      c = mkConv (round_rsd r) (round_iterations r) (round_mean r) /\
      ld_ltb (round_rsd r) (Fin 100) = true /\
      Forall (fun r' => ld_ltb (round_rsd r) (round_rsd r') = true) pre)).
Proof.
  intros rounds.
  apply (record_is_first_lowest_round rounds). reflexivity.
Defined.

(** ** More on the statistics of a round *)

Lemma sum_of_total_ticks ds : sum_of ds = IZR (total_ticks ds).
Proof.
  induction ds as [|d ds IH]; [reflexivity|].
  cbn [sum_of total_ticks fold_right].
  fold (sum_of ds) (total_ticks ds). now rewrite plus_IZR, IH.
Qed.

Lemma squared_deviations_pos m ds : (0 <= squared_deviations m ds)%R.
Proof.
  induction ds as [|d ds IH]; [simpl; lra|].
  cbn [squared_deviations fold_right]. fold (squared_deviations m ds).
  pose proof (pow2_ge_0 (IZR d - m)). lra.
Qed.

Lemma squared_deviations_zero m ds :
  squared_deviations m ds = 0%R <-> Forall (fun d => IZR d = m) ds.
Proof.
  induction ds as [|d ds IH].
  - split; [constructor|reflexivity].
  - cbn [squared_deviations fold_right]. fold (squared_deviations m ds).
    pose proof (pow2_ge_0 (IZR d - m)) as Hd.
    pose proof (squared_deviations_pos m ds) as Hs.
    split.
    + intros H. assert (Hd0 : ((IZR d - m) ^ 2 = 0)%R) by lra.
      assert (Hs0 : squared_deviations m ds = 0%R) by lra.
      constructor; [|now apply IH].
      assert (IZR d - m = 0)%R; [|lra].
      apply Rsqr_0_uniq. unfold Rsqr. simpl in Hd0. lra.
    + intros H. apply Forall_cons_iff in H. destruct H as [Hd1 Hrest].
      apply IH in Hrest. rewrite Hrest, Hd1. ring.
Qed.

Lemma variance_zero ds size :
  (0 < size)%N ->
  variance (statistics_of ds size) = 0%R <->
  Forall (fun d => IZR d = mean (statistics_of ds size)) ds.
Proof.
  intros Hpos. pose proof (size_to_ld_pos size Hpos) as Hs.
  cbn [statistics_of variance mean]. rewrite <- squared_deviations_zero.
  set (q := squared_deviations _ ds). split; intros H.
  - apply (Rmult_eq_compat_r (size_to_ld size)) in H.
    unfold Rdiv in H. rewrite Rmult_assoc, Rinv_l, Rmult_1_r, Rmult_0_l in H;
      [exact H | lra].
  - rewrite H. unfold Rdiv. ring.
Qed.

Lemma all_equal_repeat (ds : list Z) d :
  Forall (fun x => x = d) ds -> ds = repeat d (length ds).
Proof.
  induction 1 as [|x l Hx _ IH]; [reflexivity|].
  simpl. now rewrite Hx, <- IH.
Qed.



(** X9: on a sample of [size > 0] durations the relative standard deviation
    is a NaN exactly when every duration is 0, +infinity exactly when the
    durations are not all 0 but add up to 0 (which takes a negative one), a
    real number exactly when they do not add up to 0, and never
    -infinity. *)
Theorem rsd_special_values (ds : list Z) (size : N) (w : world) :
  length ds = N.to_nat size ->
  (0 < size)%N ->
  exists stats,
    reduce ds size w = Ok stats w /\
    (relative_standard_deviation stats = NaN <-> Forall (fun d => d = 0%Z) ds) /\
    (relative_standard_deviation stats = PInf <->
     total_ticks ds = 0%Z /\ ~ Forall (fun d => d = 0%Z) ds) /\
    (is_finite (relative_standard_deviation stats) = true <->
     total_ticks ds <> 0%Z) /\
    relative_standard_deviation stats <> NInf.
Proof.
  intros Hlen Hpos. exists (statistics_of ds size).
  split; [now apply reduce_ok|].
  pose proof (size_to_ld_pos size Hpos) as Hs.
  pose proof (variance_zero ds size Hpos) as Hvar.
  set (stats := statistics_of ds size) in *.
  assert (Hmean : mean stats = (IZR (total_ticks ds) / size_to_ld size)%R).
  { unfold stats. cbn [statistics_of mean]. now rewrite sum_of_total_ticks. }
  assert (Hm0 : mean stats = 0%R <-> total_ticks ds = 0%Z).
  { rewrite Hmean. split; intros H.
    - apply eq_IZR.
      apply (Rmult_eq_compat_r (size_to_ld size)) in H. unfold Rdiv in H.
      rewrite Rmult_assoc, Rinv_l, Rmult_1_r, Rmult_0_l in H; [exact H|lra].
    - rewrite H. unfold Rdiv. ring. }
  assert (Hsd : standard_deviation stats = sqrt (variance stats))
    by reflexivity.
  assert (Hv0 : (0 <= variance stats)%R).
  { unfold stats. cbn [statistics_of variance].
    pose proof (squared_deviations_pos
                  (sum_of ds / size_to_ld size) ds) as Hq.
    apply Rmult_le_pos; [exact Hq|]. left. now apply Rinv_0_lt_compat. }
  assert (Hsd0 : standard_deviation stats = 0%R <-> variance stats = 0%R).
  { rewrite Hsd. split; intros H; [now apply sqrt_eq_0 | rewrite H; apply sqrt_0]. }
  assert (Hsdpos : (0 <= standard_deviation stats)%R)
    by (rewrite Hsd; apply sqrt_pos).
  assert (Hzero : Forall (fun d => d = 0%Z) ds <->
                  mean stats = 0%R /\ variance stats = 0%R).
  { split.
    - intros Hall. unfold stats.
      rewrite (all_equal_repeat _ _ Hall), Hlen.
      destruct (statistics_of_repeat 0 size Hpos) as (Hm & Hv & _). auto.
    - intros [Hm Hv]. apply Hvar in Hv. rewrite Hm in Hv.
      eapply Forall_impl; [|exact Hv]. cbv beta. intros d Hd.
      now apply eq_IZR. }
  assert (Hr : relative_standard_deviation stats =
               ld_div (standard_deviation stats * 100) (mean stats))
    by reflexivity.
  rewrite Hr. unfold ld_div.
  assert (Hfin : forall X, is_finite X = false -> mean stats = 0%R ->
                           is_finite X = true <-> total_ticks ds <> 0%Z).
  { intros X HX Em. rewrite HX. split; [discriminate|].
    intros Hn. exfalso. apply Hn, Hm0, Em. }
  destruct (Req_dec_T (mean stats) 0) as [Em|Em].
  - destruct (Req_dec_T (standard_deviation stats * 100) 0) as [Es|Es].
    + assert (Hall : Forall (fun d => d = 0%Z) ds).
      { apply Hzero. split; [exact Em|]. apply Hsd0. lra. }
      split; [split; auto|].
      split; [split; [discriminate | intros [_ Hn]; contradiction]|].
      split; [now apply Hfin | discriminate].
    + destruct (Rlt_dec 0 (standard_deviation stats * 100)); [|lra].
      assert (Hnot : ~ Forall (fun d => d = 0%Z) ds).
      { intros Hall. apply Hzero in Hall. destruct Hall as [_ Hv].
        apply Hsd0 in Hv. lra. }
      split; [split; [discriminate | contradiction]|].
      split; [split; [intros _; split; [now apply Hm0 | exact Hnot]
                     | reflexivity]|].
      split; [now apply Hfin | discriminate].
  - assert (Hnot : ~ Forall (fun d => d = 0%Z) ds).
    { intros Hall. apply Hzero in Hall. tauto. }
    split; [split; [discriminate | contradiction]|].
    split; [split; [discriminate
                   | intros [Ht _]; apply Hm0 in Ht; contradiction]|].
    split; [|discriminate].
    split; [intros _ Ht; apply Hm0 in Ht; contradiction | reflexivity].
Qed.

Lemma rsd_special_values_witness :
  exists stats,
    reduce [-1; 1]%Z 2 w0 = Ok stats w0 /\
    (relative_standard_deviation stats = NaN <->
     Forall (fun d => d = 0%Z) [-1; 1]%Z) /\
    (relative_standard_deviation stats = PInf <->
     total_ticks [-1; 1]%Z = 0%Z /\ ~ Forall (fun d => d = 0%Z) [-1; 1]%Z) /\
    (is_finite (relative_standard_deviation stats) = true <->
     total_ticks [-1; 1]%Z <> 0%Z) /\
    relative_standard_deviation stats <> NInf.
Proof.
  apply (rsd_special_values [-1; 1]%Z 2 w0); [reflexivity | lia].
Defined.






(** ** What the record is computed from *)

Lemma sampling_loop_rounds d : forall fuel st w obj st' w',
  durations st = [] ->
  sampling_loop fuel (total d) st w = Ok (obj, st') w' ->
  conv st' = track (conv st) (rounds_from d fuel (calls w) (num_runs st)).
Proof.
  induction fuel as [|fuel IH]; intros st w obj st' w' Hd H; [discriminate|].
  destruct (loop_body_total d st w) as (stats & Hstats & Hb).
  specialize (Hstats Hd). cbv zeta in Hb.
  rewrite sampling_loop_S, (bind_Ok _ Hb) in H. clear Hb.
  cbn [rounds_from]. subst stats.
  set (obj1 := policy_for (estimate_at d (calls w))) in *.
  destruct (policy_bounds (estimate_at d (calls w))) as [_ Hmax].
  fold obj1 in Hmax.
  destruct (N.leb_spec (max_num_runs_ obj1) (num_runs st)) as [Hle|Hlt].
  - injection H as _ <- _. reflexivity.
  - apply IH in H; [|reflexivity].
    cbn [conv calls num_runs] in H.
    rewrite size_t_incr_small in H by lia. exact H.
Qed.

Lemma sampling_loop_rounds_length d : forall fuel st w obj st' w',
  durations st = [] -> (num_runs st <= 10000)%N ->
  sampling_loop fuel (total d) st w = Ok (obj, st') w' ->
  length (rounds_from d fuel (calls w) (num_runs st)) =
  (N.to_nat (num_runs st' - num_runs st) + 1)%nat.
Proof.
  induction fuel as [|fuel IH]; intros st w obj st' w' Hd Hn H;
    [discriminate|].
  destruct (loop_body_total d st w) as (stats & _ & Hb). cbv zeta in Hb.
  rewrite sampling_loop_S, (bind_Ok _ Hb) in H. clear Hb.
  cbn [rounds_from].
  set (obj1 := policy_for (estimate_at d (calls w))) in *.
  destruct (policy_bounds (estimate_at d (calls w))) as [_ Hmax].
  fold obj1 in Hmax.
  destruct (N.leb_spec (max_num_runs_ obj1) (num_runs st)) as [Hle|Hlt].
  - injection H as _ <- _. cbn [num_runs length].
    rewrite N.sub_diag. reflexivity.
  - assert (Hn1 : size_t_incr (num_runs st) = (num_runs st + 1)%N)
      by (apply size_t_incr_small; lia).
    pose proof H as H'.
    apply IH in H; [|reflexivity|cbn [num_runs]; lia].
    cbn [calls num_runs] in H. rewrite Hn1 in H.
    cbn [length]. rewrite H.
    apply sampling_loop_exit in H'; [|reflexivity|cbn [num_runs]; lia].
    destruct H' as (front & _ & _ & _ & _ & Hn' & _).
    cbn [num_runs] in Hn'. lia.
Qed.

(** X17: for a callable that never throws, the record the constructor ends
    with is the record of lines 144-150 run over the statistics of its
    successive rounds, where the sample of a round is the tick counts of the
    [num_iterations_] calls that follow the ten warm-up calls of that round:
    warm-up calls are never part of a sample, and no measured call is
    dropped or counted twice. *)
Theorem record_of_measured_rounds (fuel : nat) (name : string)
    (d : nat -> Z) (w : world) (obj : benchmark_obj) (st : locals)
    (w' : world) :
  benchmark fuel name (total d) w = Ok (obj, st) w' ->
  conv st = track conv_init (rounds_from d fuel (calls w + warmup_runs) 0) /\
  length (rounds_from d fuel (calls w + warmup_runs) 0) =
    (N.to_nat (num_runs st) + 1)%nat.
Proof.
  intros H. apply benchmark_Ok_inv in H.
  destruct H as (e & w3 & Hl & _).
  set (st0 := locals_init name (policy_for e)) in *.
  split.
  - exact (sampling_loop_rounds d _ st0 _ _ _ _ eq_refl Hl).
  - pose proof (sampling_loop_rounds_length d _ st0 _ _ _ _ eq_refl
                  ltac:(simpl; lia) Hl) as Hlen.
    cbn [calls num_runs st0 locals_init] in Hlen. rewrite Hlen.
    now rewrite N.sub_0_r.
Qed.

Lemma record_of_measured_rounds_witness :
  exists obj st w',
    benchmark round_bound "bench" (total two_seconds) w0 = Ok (obj, st) w' /\
    conv st = track conv_init
                (rounds_from two_seconds round_bound (calls w0 + warmup_runs) 0) /\
    length (rounds_from two_seconds round_bound (calls w0 + warmup_runs) 0) =
      (N.to_nat (num_runs st) + 1)%nat.
Proof.
  destruct (total_callable_completes two_seconds "bench" w0)
    as (obj & st & w' & H).
  exists obj, st, w'.
  exact (conj H (record_of_measured_rounds _ _ _ _ _ _ _ H)).
Defined.
